(** * Genetic-programming strategy search: fitness, primitives, signal
      compilation and the evolutionary loop of [genetic/strategy_ga.py],
      with the drawdown helper of [genetic/metrics.py].

    Numbers.  A Python / NumPy float is modelled by [pyfloat]: a finite
    value carried by an exact rational, or one of the three special values
    +Inf, -Inf and NaN with their IEEE-754 rules.  Rounding, overflow of
    finite arithmetic and the sign of zero are outside the model.

    Exceptions are explicit: a computation that may raise returns a
    [result].

    pandas.  A Series is the list of its values; the operations used by
    the code ([*], [/], [cumprod], [cummax], [min], [iloc[-1]]) follow
    pandas, NaN handling included.  A DataFrame is the list of the names
    of its columns with its rows; columns are selected by name.

    DEAP.  An individual is a [PrimitiveTree].  The generator of Python's
    [random] module and the DEAP operators that draw from it are the
    fields of a [deap] record; [evolve] threads the generator state
    through them and records the lines it prints.

    Layout: the model of the search comes first, then the facts about it,
    then an instance of the libraries on which the model is run; the
    further functions of the two files, of [debug_ga_hof.py] and of
    [data_io.py] follow, each with its facts. *)

From Stdlib Require Import QArith Qabs Qround Lqa Lia List Bool Arith ZArith.
From Stdlib Require Import Sorted.
From Stdlib Require String.
Import ListNotations.
Import String.StringSyntax.
Delimit Scope string_scope with string.
Local Open Scope Q_scope.

(* ------------------------------------------------------------------ *)
(** ** Exceptions *)

Inductive exn : Type :=
| ZeroDivisionError
| ValueError
| OverflowError
| IndexError
| TypeError
| NameError
| KeyError.

Inductive result (A : Type) : Type :=
| Ok (a : A)
| Raise (e : exn).

Arguments Ok {A} a.
Arguments Raise {A} e.

Definition rbind {A B : Type} (r : result A) (k : A -> result B) : result B :=
  match r with
  | Ok a => k a
  | Raise e => Raise e
  end.

Declare Scope result_scope.
Delimit Scope result_scope with result.
Notation "x <- r ;; k" := (rbind r (fun x => k))
  (at level 61, r at next level, right associativity) : result_scope.

(** [try: body except Exception: return v] *)
Definition try_except {A : Type} (body : result A) (v : A) : result A :=
  match body with
  | Ok a => Ok a
  | Raise _ => Ok v
  end.

Fixpoint mapM {A B : Type} (f : A -> result B) (l : list A) : result (list B) :=
  match l with
  | [] => Ok []
  | a :: l' =>
      match f a with
      | Raise e => Raise e
      | Ok b =>
          match mapM f l' with
          | Raise e => Raise e
          | Ok bs => Ok (b :: bs)
          end
      end
  end.

(* ------------------------------------------------------------------ *)
(** ** Floats *)

Inductive pyfloat : Type :=
| Fin (q : Q)
| PInf
| NInf
| NaN.

Definition is_finite (x : pyfloat) : bool :=
  match x with Fin _ => true | _ => false end.

Definition is_nan (x : pyfloat) : bool :=
  match x with NaN => true | _ => false end.

Definition Qltb (a b : Q) : bool :=
  match a ?= b with Lt => true | _ => false end.

Definition Qeqb (a b : Q) : bool :=
  match a ?= b with Eq => true | _ => false end.

Definition fneg (x : pyfloat) : pyfloat :=
  match x with
  | Fin q => Fin (- q)
  | PInf => NInf
  | NInf => PInf
  | NaN => NaN
  end.

Definition fabs (x : pyfloat) : pyfloat :=
  match x with
  | Fin q => Fin (Qabs q)
  | PInf | NInf => PInf
  | NaN => NaN
  end.

Definition fadd (x y : pyfloat) : pyfloat :=
  match x, y with
  | NaN, _ | _, NaN => NaN
  | Fin a, Fin b => Fin (a + b)
  | PInf, NInf | NInf, PInf => NaN
  | PInf, _ | _, PInf => PInf
  | NInf, _ | _, NInf => NInf
  end.

Definition fsub (x y : pyfloat) : pyfloat := fadd x (fneg y).

(** An infinity of sign [pos] multiplied by the finite [q]. *)
Definition inf_times (pos : bool) (q : Q) : pyfloat :=
  if Qeqb q 0 then NaN
  else if Bool.eqb pos (Qltb 0 q) then PInf else NInf.

Definition fmul (x y : pyfloat) : pyfloat :=
  match x, y with
  | NaN, _ | _, NaN => NaN
  | Fin a, Fin b => Fin (a * b)
  | PInf, Fin b => inf_times true b
  | NInf, Fin b => inf_times false b
  | Fin a, PInf => inf_times true a
  | Fin a, NInf => inf_times false a
  | PInf, PInf | NInf, NInf => PInf
  | PInf, NInf | NInf, PInf => NInf
  end.

(** IEEE division, as NumPy and pandas perform it: a zero divisor gives an
    infinity or NaN and nothing is raised. *)
Definition fdiv (x y : pyfloat) : pyfloat :=
  match x, y with
  | NaN, _ | _, NaN => NaN
  | Fin a, Fin b =>
      if Qeqb b 0 then
        (if Qeqb a 0 then NaN else if Qltb 0 a then PInf else NInf)
      else Fin (a / b)
  | Fin _, _ => Fin 0
  | PInf, Fin b => if Qltb b 0 then NInf else PInf
  | NInf, Fin b => if Qltb b 0 then PInf else NInf
  | _, _ => NaN
  end.

(** Comparisons: every comparison with NaN is false, except [!=]. *)
Definition fltb (x y : pyfloat) : bool :=
  match x, y with
  | NaN, _ | _, NaN => false
  | Fin a, Fin b => Qltb a b
  | NInf, NInf => false
  | NInf, _ => true
  | _, NInf => false
  | PInf, _ => false
  | _, PInf => true
  end.

Definition feqb (x y : pyfloat) : bool :=
  match x, y with
  | Fin a, Fin b => Qeqb a b
  | PInf, PInf | NInf, NInf => true
  | _, _ => false
  end.

Definition fgtb (x y : pyfloat) : bool := fltb y x.
Definition fleb (x y : pyfloat) : bool := fltb x y || feqb x y.
Definition fgeb (x y : pyfloat) : bool := fleb y x.
Definition fneb (x y : pyfloat) : bool := negb (feqb x y).

(** Python's [x / y] on floats: a zero divisor raises. *)
Definition py_div (x y : pyfloat) : result pyfloat :=
  if feqb y (Fin 0) then Raise ZeroDivisionError else Ok (fdiv x y).

(** Python's built-in [min(a, b)] and [max(a, b)]: the first argument is
    kept unless the second compares strictly below (above) it. *)
Definition py_min (a b : pyfloat) : pyfloat := if fltb b a then b else a.
Definition py_max (a b : pyfloat) : pyfloat := if fgtb b a then b else a.

(* ------------------------------------------------------------------ *)
(** ** The C library functions

    [math.exp], [math.sqrt], [math.log1p] and [np.tanh] are not rational
    functions.  Their value at a finite argument is taken from a [libm];
    what they do at the special values and when they raise is fixed here,
    following the Python documentation. *)

Record libm : Type := {
  tanh_fin : Q -> Q;
  sqrt_fin : Q -> Q;
  exp_fin : Q -> Q;
  log1p_fin : Q -> Q
}.

(** The largest argument [math.exp] accepts: ln of the largest double,
    about 709.78. *)
Definition exp_overflow : Q := 709782712893384 # 1000000000000.

(** Names under which [make_primitives] registers the primitives. *)
Module Prim.

Inductive binary : Type := add | sub | mul | div_safe | div_prot.

Inductive unary : Type :=
  tanh | abs | sign | sqrt_safe | clip10 | sigmoid | log1p_safe.

End Prim.

(** An individual: a tree over the primitive set.  [Arg i] is the terminal
    bound to the i-th feature column, [Const c] an ephemeral constant,
    frozen into the tree when the tree is built. *)
Inductive PrimitiveTree : Type :=
| Arg (i : nat)
| Const (c : Q)
| Call1 (f : Prim.unary) (a : PrimitiveTree)
| Call2 (f : Prim.binary) (a b : PrimitiveTree).

Section Primitives.

Variable lm : libm.

Definition math_sqrt (x : pyfloat) : result pyfloat :=
  match x with
  | Fin q => if Qltb q 0 then Raise ValueError else Ok (Fin (sqrt_fin lm q))
  | PInf => Ok PInf
  | NInf => Raise ValueError
  | NaN => Ok NaN
  end.

Definition math_exp (x : pyfloat) : result pyfloat :=
  match x with
  | Fin q =>
      if Qltb exp_overflow q then Raise OverflowError
      else Ok (Fin (exp_fin lm q))
  | PInf => Ok PInf
  | NInf => Ok (Fin 0)
  | NaN => Ok NaN
  end.

Definition math_log1p (x : pyfloat) : result pyfloat :=
  match x with
  | Fin q =>
      if Qle_bool q (-1) then Raise ValueError
      else Ok (Fin (log1p_fin lm q))
  | PInf => Ok PInf
  | NInf => Raise ValueError
  | NaN => Ok NaN
  end.

Definition np_tanh (x : pyfloat) : pyfloat :=
  match x with
  | Fin q => Fin (tanh_fin lm q)
  | PInf => Fin 1
  | NInf => Fin (-1)
  | NaN => NaN
  end.

Definition np_abs (x : pyfloat) : pyfloat := fabs x.

Definition np_sign (x : pyfloat) : pyfloat :=
  match x with
  | Fin q => if Qltb q 0 then Fin (-1) else if Qltb 0 q then Fin 1 else Fin 0
  | PInf => Fin 1
  | NInf => Fin (-1)
  | NaN => NaN
  end.

(** [np.exp]: overflow gives +Inf, nothing is raised. *)
Definition np_exp (x : pyfloat) : pyfloat :=
  match x with
  | Fin q => if Qltb exp_overflow q then PInf else Fin (exp_fin lm q)
  | PInf => PInf
  | NInf => Fin 0
  | NaN => NaN
  end.

(** [np.clip(x, lo, hi)] = [minimum(maximum(x, lo), hi)]; NaN stays NaN. *)
Definition np_clip (x lo hi : pyfloat) : pyfloat :=
  match x with
  | NaN => NaN
  | _ =>
      let m := if fltb x lo then lo else x in
      if fltb hi m then hi else m
  end.

(** *** The protected primitives *)

Definition protected_log (x : pyfloat) : result pyfloat :=
  try_except
    (if fleb x (Fin (-(999 # 1000))) then Ok (Fin 0) else math_log1p x)
    (Fin 0).

Definition protected_div (x y : pyfloat) : result pyfloat :=
  try_except
    (if fgtb (fabs y) (Fin (1 # 1000000)) then py_div x y else Ok (Fin 0))
    (Fin 0).

Definition protected_sqrt (x : pyfloat) : result pyfloat :=
  try_except (math_sqrt (fabs x)) (Fin 0).

Definition clip10 (x : pyfloat) : result pyfloat :=
  try_except (Ok (py_max (Fin (-10)) (py_min (Fin 10) x))) (Fin 0).

Definition sigmoid_safe (x : pyfloat) : result pyfloat :=
  try_except
    (c <- clip10 x ;;
     e <- math_exp (fneg c) ;;
     py_div (Fin 1) (fadd (Fin 1) e))%result
    (Fin (1 # 2)).

(** *** The registry built by [make_primitives] *)

Definition apply2 (f : Prim.binary) (a b : pyfloat) : result pyfloat :=
  match f with
  | Prim.add => Ok (fadd a b)
  | Prim.sub => Ok (fsub a b)
  | Prim.mul => Ok (fmul a b)
  | Prim.div_safe => if fneb b (Fin 0) then py_div a b else Ok (Fin 0)
  | Prim.div_prot => protected_div a b
  end.

Definition apply1 (f : Prim.unary) (a : pyfloat) : result pyfloat :=
  match f with
  | Prim.tanh => Ok (np_tanh a)
  | Prim.abs => Ok (np_abs a)
  | Prim.sign => Ok (np_sign a)
  | Prim.sqrt_safe => protected_sqrt a
  | Prim.clip10 => clip10 a
  | Prim.sigmoid => sigmoid_safe a
  | Prim.log1p_safe => protected_log a
  end.

End Primitives.

(* ------------------------------------------------------------------ *)
(** ** pandas Series

    A Series is the list of its values in index order.  Two Series that
    take part in one operation share their index on the common prefix; a
    label present on one side only gives NaN (pandas aligns on the union
    of the indexes). *)

Definition Series : Type := list pyfloat.

(** Elementwise binary operation with index alignment. *)
Fixpoint align (op : pyfloat -> pyfloat -> pyfloat) (a b : Series) : Series :=
  match a, b with
  | x :: a', y :: b' => op x y :: align op a' b'
  | [], _ => map (fun _ => NaN) b
  | _, [] => map (fun _ => NaN) a
  end.

Definition smul (a b : Series) : Series := align fmul a b.
Definition sdiv (a b : Series) : Series := align fdiv a b.

(** [c + s] and [s - c] for a scalar [c]. *)
Definition scalar_add (c : pyfloat) (s : Series) : Series := map (fadd c) s.
Definition sub_scalar (s : Series) (c : pyfloat) : Series :=
  map (fun x => fsub x c) s.

(** [Series.cumprod()] and [Series.cummax()], with pandas' default
    [skipna=True]: a NaN entry stays NaN and does not enter the running
    value.  [acc] is the running value, [None] before the first entry. *)
Fixpoint cumprod_from (acc : option pyfloat) (s : Series) : Series :=
  match s with
  | [] => []
  | NaN :: s' => NaN :: cumprod_from acc s'
  | x :: s' =>
      let p := match acc with None => x | Some a => fmul a x end in
      p :: cumprod_from (Some p) s'
  end.

Definition cumprod (s : Series) : Series := cumprod_from None s.

Fixpoint cummax_from (acc : option pyfloat) (s : Series) : Series :=
  match s with
  | [] => []
  | NaN :: s' => NaN :: cummax_from acc s'
  | x :: s' =>
      let m := match acc with
               | None => x
               | Some a => if fltb a x then x else a
               end in
      m :: cummax_from (Some m) s'
  end.

Definition cummax (s : Series) : Series := cummax_from None s.

(** [Series.min()], [skipna=True]: the least entry that is not NaN, and NaN
    when there is none. *)
Fixpoint smin (s : Series) : pyfloat :=
  match s with
  | [] => NaN
  | x :: s' =>
      match x, smin s' with
      | NaN, m => m
      | _, NaN => x
      | _, m => if fltb m x then m else x
      end
  end.

(** [s.iloc[-1]] *)
Definition iloc_last (s : Series) : result pyfloat :=
  match s with
  | [] => Raise IndexError
  | x :: s' => Ok (last s' x)
  end.

(* ------------------------------------------------------------------ *)
(** ** metrics.py *)

Definition equity_curve (returns : Series) : Series :=
  cumprod (scalar_add (Fin 1) returns).

Definition max_drawdown (returns : Series) : pyfloat :=
  let ec := equity_curve returns in
  let roll_max := cummax ec in
  let dd := sub_scalar (sdiv ec roll_max) (Fin 1) in
  smin dd.

(* ------------------------------------------------------------------ *)
(** ** fitness_function *)

(** The failure floor, [-1e9]. *)
Definition FLOOR : pyfloat := Fin (-1000000000).

Definition fitness_function (signal returns : Series) : result pyfloat :=
  (let equity := cumprod (scalar_add (Fin 1) (smul returns signal)) in
   final <- iloc_last equity ;;
   let total_ret := fsub final (Fin 1) in
   let mdd := max_drawdown (smul returns signal) in
   if fltb total_ret (Fin 0) then Ok FLOOR
   else if fltb total_ret (Fin (3 # 10)) then Ok (fmul (Fin (-1000)) total_ret)
   else
     let score := fsub total_ret (fmul (Fin (3 # 10)) mdd) in
     Ok score)%result.

(** The total compounded return of a signal/target pair,
    [(1 + returns * signal).cumprod().iloc[-1] - 1]: the [total_ret] of
    [fitness_function] and the [val_total_ret] of the early-stop check. *)
Definition total_return (signal returns : Series) : result pyfloat :=
  (let equity := cumprod (scalar_add (Fin 1) (smul returns signal)) in
   final <- iloc_last equity ;;
   Ok (fsub final (Fin 1)))%result.

(* ------------------------------------------------------------------ *)
(** ** compile_individual *)

(** A DataFrame: the names of its columns and its rows, each row holding
    one value per column. *)
Record DataFrame : Type := {
  columns : list String.string;
  rows : list (list pyfloat)
}.


(** The values a row holds in the columns called [name]. *)
Fixpoint column_values (name : String.string) (cols : list String.string)
  (row : list pyfloat) : list pyfloat :=
  match cols, row with
  | c :: cols', v :: row' =>
      if String.eqb c name then v :: column_values name cols' row'
      else column_values name cols' row'
  | _, _ => []
  end.

(** [X[feat_cols].values]: the columns are looked up by name and come in
    the order of [feat_cols]; a name the table does not have raises
    KeyError. *)
Definition select_values (X : DataFrame) (feat_cols : list String.string)
  : result (list (list pyfloat)) :=
  if forallb (fun name => existsb (String.eqb name) (columns X)) feat_cols
  then
    Ok (map (fun row =>
               flat_map (fun name => column_values name (columns X) row)
                 feat_cols)
          (rows X))
  else Raise KeyError.











Section Compile.

Variable lm : libm.

(** The function [gp.compile] builds from the tree: the arguments are
    evaluated left to right. *)
Fixpoint eval (row : list pyfloat) (e : PrimitiveTree) : result pyfloat :=
  match e with
  | Arg i =>
      match nth_error row i with
      | Some v => Ok v
      | None => Raise NameError
      end
  | Const c => Ok (Fin c)
  | Call1 f a => (x <- eval row a ;; apply1 lm f x)%result
  | Call2 f a b =>
      (x <- eval row a ;; y <- eval row b ;; apply2 f x y)%result
  end.

(** [func = gp.compile(expr=ind, pset=pset)], called on the values of one
    row.  For a primitive set with at least one argument [gp.compile]
    gives a lambda of [nargs] arguments; with no argument it gives the
    value of the expression, a float, and calling that raises TypeError.
    The tree is one Python can parse (see [len]). *)
Definition gp_compile (ind : PrimitiveTree) (nargs : nat) (row : list pyfloat)
  : result pyfloat :=
  match nargs with
  | O => Raise TypeError
  | S _ => if Nat.eqb (length row) nargs then eval row ind else Raise TypeError
  end.

(** [compile_individual(ind, pset, feat_cols)], with the primitive set
    [pset = make_primitives(feat_cols)] that [evolve] and [main] pass. *)
Definition compile_individual (ind : PrimitiveTree)
  (feat_cols : list String.string) : DataFrame -> result Series :=
  let func := gp_compile ind (length feat_cols) in
  fun X =>
    (values <- select_values X feat_cols ;;
     raw <- mapM func values ;;
     let prob :=
       map (fun r =>
              fdiv (Fin 1)
                (fadd (Fin 1)
                   (np_exp lm (fneg (np_clip r (Fin (-10)) (Fin 10))))))
           raw in
     let sig :=
       map (fun p => if fgtb p (Fin (55 # 100)) then Fin 1 else Fin 0) prob in
     Ok sig)%result.

End Compile.

(* ------------------------------------------------------------------ *)
(** ** The evolutionary loop

    The loop runs in a world made of the state of the generator behind
    Python's [random] module and of what has been printed so far.  The
    DEAP operators are those of the library [deap]; each takes the
    generator state and gives it back. *)

(** The lines [evolve] prints. *)
Inductive line : Type :=
| GenLine (gen : nat) (max mean : pyfloat)
| EarlyStopLine.

(** The entries of [tools.HallOfFame], best first, with their fitness. *)
Definition HallOfFame : Type := list (PrimitiveTree * pyfloat).

Section Evolve.

Variable G : Type.

Record world : Type := {
  rng : G;
  stdout : list line
}.

Definition M (A : Type) : Type := world -> result A * world.

Definition ret {A : Type} (a : A) : M A := fun w => (Ok a, w).

Definition bind {A B : Type} (m : M A) (k : A -> M B) : M B :=
  fun w =>
    match m w with
    | (Ok a, w') => k a w'
    | (Raise e, w') => (Raise e, w')
    end.

(** A computation that touches neither the generator nor the output. *)
Definition lift {A : Type} (r : result A) : M A := fun w => (r, w).

(** A computation that draws from the generator. *)
Definition with_rng {A : Type} (f : G -> A * G) : M A :=
  fun w =>
    let (a, g) := f (rng w) in
    (Ok a, {| rng := g; stdout := stdout w |}).

(** The world after one more line has been printed. *)
Definition emit (w : world) (l : line) : world :=
  {| rng := rng w; stdout := stdout w ++ [l] |}.

Definition print (l : line) : M unit := fun w => (Ok tt, emit w l).

Notation "x <- m ;; k" := (bind m (fun x => k))
  (at level 61, m at next level, right associativity).
Notation "m ;;; k" := (bind m (fun _ => k))
  (at level 61, right associativity).

(** What [evolve] uses of [random] and [deap].  [cxOnePoint] and
    [mutUniform] stand for the operators as decorated by
    [gp.staticLimit(key=len, max_value=80)]. *)
Record deap : Type := {
  seed : nat -> G;
  random : G -> Q * G;
  genFull : nat -> nat -> nat -> G -> PrimitiveTree * G;
  cxOnePoint : PrimitiveTree -> PrimitiveTree -> G
               -> (PrimitiveTree * PrimitiveTree) * G;
  mutUniform : PrimitiveTree -> G -> PrimitiveTree * G;
  selTournament : list (PrimitiveTree * pyfloat) -> nat -> nat -> G
                  -> list PrimitiveTree * G;
  hof_update : nat -> HallOfFame -> list (PrimitiveTree * pyfloat)
               -> HallOfFame
}.

(** The functions [evolve] registers in its toolbox. *)
Record Toolbox : Type := {
  expr : M PrimitiveTree;
  individual : M PrimitiveTree;
  population : nat -> M (list PrimitiveTree);
  compile : PrimitiveTree -> DataFrame -> result Series;
  evaluate : PrimitiveTree -> result pyfloat;
  select : list (PrimitiveTree * pyfloat) -> nat -> M (list PrimitiveTree);
  mate : PrimitiveTree -> PrimitiveTree -> M (PrimitiveTree * PrimitiveTree);
  mutate : PrimitiveTree -> M PrimitiveTree
}.

(** [tools.initRepeat(list, func, n)] *)
Fixpoint initRepeat {A : Type} (func : M A) (n : nat) : M (list A) :=
  match n with
  | O => ret []
  | S k => a <- func ;; l <- initRepeat func k ;; ret (a :: l)
  end.

Variable lib : deap.

(** [algorithms.varAnd(population, toolbox, cxpb, mutpb)], from the
    library: consecutive pairs are mated with probability [cxpb], then
    every individual is mutated with probability [mutpb].  Of the toolbox
    it calls [mate] and [mutate] only. *)
Fixpoint mate_pairs (toolbox : Toolbox) (cxpb : Q)
  (offspring : list PrimitiveTree) : M (list PrimitiveTree) :=
  match offspring with
  | a :: b :: rest =>
      r <- with_rng (random lib) ;;
      ab <- (if Qltb r cxpb then mate toolbox a b else ret (a, b)) ;;
      rest' <- mate_pairs toolbox cxpb rest ;;
      ret (fst ab :: snd ab :: rest')
  | _ => ret offspring
  end.

Fixpoint mutate_each (toolbox : Toolbox) (mutpb : Q)
  (offspring : list PrimitiveTree) : M (list PrimitiveTree) :=
  match offspring with
  | [] => ret []
  | a :: rest =>
      r <- with_rng (random lib) ;;
      a' <- (if Qltb r mutpb then mutate toolbox a else ret a) ;;
      rest' <- mutate_each toolbox mutpb rest ;;
      ret (a' :: rest')
  end.

Definition varAnd (population : list PrimitiveTree) (toolbox : Toolbox)
  (cxpb mutpb : Q) : M (list PrimitiveTree) :=
  offspring <- mate_pairs toolbox cxpb population ;;
  mutate_each toolbox mutpb offspring.

(** [np.max] and [np.mean] of the fitness values, for the statistics. *)
Definition np_maximum (a b : pyfloat) : pyfloat :=
  match a, b with
  | NaN, _ | _, NaN => NaN
  | _, _ => if fltb a b then b else a
  end.

Definition np_max (l : list pyfloat) : result pyfloat :=
  match l with
  | [] => Raise ValueError
  | x :: l' => Ok (fold_left np_maximum l' x)
  end.

Definition np_mean (l : list pyfloat) : pyfloat :=
  fdiv (fold_left fadd l (Fin 0)) (Fin (inject_Z (Z.of_nat (length l)))).

(** [hof[0]] *)
Definition hof_first (hof : HallOfFame) : result PrimitiveTree :=
  match hof with
  | [] => Raise IndexError
  | (ind, _) :: _ => Ok ind
  end.

Variable lm : libm.

(** The early-stop check: the cumulative return of the signal of [hof[0]]
    on the validation split. *)
Definition validation_return (toolbox : Toolbox) (hof : HallOfFame)
  (val_X : DataFrame) (val_y : Series) : result pyfloat :=
  (best_ind <- hof_first hof ;;
   let signal_fn := compile toolbox best_ind in
   val_sig <- signal_fn val_X ;;
   total_return val_sig val_y)%result.

(** The body of [for gen in range(200)], for the [remaining] generations
    from [gen] on. *)
Fixpoint generations (toolbox : Toolbox) (val_X : DataFrame) (val_y : Series)
  (remaining gen : nat) (pop : list PrimitiveTree) (hof : HallOfFame)
  : M HallOfFame :=
  match remaining with
  | O => ret hof
  | S k =>
      pop <- varAnd pop toolbox (1 # 2) (4 # 10) ;;
      fits <- lift (mapM (evaluate toolbox) pop) ;;
      let hof := hof_update lib 10 hof (combine pop fits) in
      mx <- lift (np_max fits) ;;
      print (GenLine gen mx (np_mean fits)) ;;;
      val_total_ret <- lift (validation_return toolbox hof val_X val_y) ;;
      if fgeb val_total_ret (Fin (8 # 10)) then
        print EarlyStopLine ;;; ret hof
      else generations toolbox val_X val_y k (S gen) pop hof
  end.

Definition make_toolbox (train_X : DataFrame) (train_y : Series) : Toolbox :=
  let feat_cols := columns train_X in
  let expr := with_rng (genFull lib (length feat_cols) 1 3) in
  let individual := expr in
  let compile := fun ind => compile_individual lm ind feat_cols in
  let eval_ind := fun ind =>
    let signal_fn := compile ind in
    (sig_train <- signal_fn train_X ;;
     fitness_function sig_train train_y)%result in
  {| expr := expr;
     individual := individual;
     population := initRepeat individual;
     compile := compile;
     evaluate := eval_ind;
     select := fun inds k => with_rng (selTournament lib inds k 5);
     mate := fun a b => with_rng (cxOnePoint lib a b);
     mutate := fun a => with_rng (mutUniform lib a) |}.

Definition evolve (train_X : DataFrame) (train_y : Series)
  (val_X : DataFrame) (val_y : Series)
  : M (HallOfFame * list String.string) :=
  let feat_cols := columns train_X in
  let toolbox := make_toolbox train_X train_y in
  pop <- population toolbox 400 ;;
  let hof := [] in
  hof <- generations toolbox val_X val_y 200 0 pop hof ;;
  ret (hof, feat_cols).

End Evolve.

Arguments rng {G} w.
Arguments stdout {G} w.
Arguments ret {G A} a w.
Arguments bind {G A B} m k w.
Arguments lift {G A} r w.
Arguments with_rng {G A} f w.
Arguments emit {G} w l.
Arguments print {G} l w.
Arguments initRepeat {G A} func n.
Arguments mate_pairs {G} lib toolbox cxpb offspring.
Arguments mutate_each {G} lib toolbox mutpb offspring.
Arguments varAnd {G} lib population toolbox cxpb mutpb.
Arguments validation_return {G} toolbox hof val_X val_y.
Arguments generations {G} lib toolbox val_X val_y remaining gen pop hof.
Arguments make_toolbox {G} lib lm train_X train_y.
Arguments evolve {G} lib lm train_X train_y val_X val_y.

(* ------------------------------------------------------------------ *)
(** ** Facts about the comparisons *)

Lemma Qltb_true (a b : Q) : Qltb a b = true <-> a < b.
Proof.
  unfold Qltb. rewrite Qlt_alt.
  destruct (a ?= b); split; intros H; congruence.
Qed.

Lemma Qltb_false (a b : Q) : Qltb a b = false <-> b <= a.
Proof.
  split; intros H.
  - apply Qnot_lt_le. intros Hlt. apply Qltb_true in Hlt. congruence.
  - destruct (Qltb a b) eqn:E; [|reflexivity].
    apply Qltb_true in E. exfalso. apply (Qlt_not_le _ _ E H).
Qed.

Lemma Qeqb_true (a b : Q) : Qeqb a b = true <-> a == b.
Proof.
  unfold Qeqb. rewrite Qeq_alt.
  destruct (a ?= b); split; intros H; congruence.
Qed.

Lemma Qeqb_false (a b : Q) : Qeqb a b = false <-> ~ a == b.
Proof.
  split; intros H.
  - intros E. apply Qeqb_true in E. congruence.
  - destruct (Qeqb a b) eqn:E; [|reflexivity].
    apply Qeqb_true in E. contradiction.
Qed.

Lemma fleb_Fin (a b : Q) : fleb (Fin a) (Fin b) = true <-> a <= b.
Proof.
  unfold fleb; cbn. rewrite orb_true_iff, Qltb_true, Qeqb_true.
  split; [intros [H|H]; lra | intros H].
  destruct (Qlt_le_dec a b); [left; assumption | right; lra].
Qed.

Lemma fltb_Fin (a b : Q) : fltb (Fin a) (Fin b) = true <-> a < b.
Proof. cbn. apply Qltb_true. Qed.

Lemma fltb_Fin_false (a b : Q) : fltb (Fin a) (Fin b) = false <-> b <= a.
Proof. cbn. apply Qltb_false. Qed.

(** [fleb] only looks at the value of a finite right-hand side. *)
Lemma fleb_Fin_r (x : pyfloat) (a b : Q) :
  a == b -> fleb x (Fin a) = true -> fleb x (Fin b) = true.
Proof.
  intros E. destruct x as [q| | |]; try (cbn; congruence).
  rewrite !fleb_Fin. lra.
Qed.

(** The minimum of a Series is at most its first entry, when that entry
    is a number. *)
Lemma smin_head (q : Q) (s : Series) :
  fleb (smin (Fin q :: s)) (Fin q) = true.
Proof.
  cbn [smin]. destruct (smin s) as [m| | |] eqn:E.
  - destruct (fltb (Fin m) (Fin q)) eqn:L.
    + apply fltb_Fin in L. apply fleb_Fin. lra.
    + apply fleb_Fin. lra.
  - cbn. apply fleb_Fin. lra.
  - reflexivity.
  - apply fleb_Fin. lra.
Qed.

(** The drawdown series starts at zero unless the equity starts at zero. *)
Lemma max_drawdown_head (q : Q) (rest : Series) :
  ~ q == -1 ->
  exists d tail, d == 0 /\
    max_drawdown (Fin q :: rest) = smin (Fin d :: tail).
Proof.
  intros Hq.
  assert (Hz : Qeqb (1 + q) 0 = false) by (apply Qeqb_false; lra).
  unfold max_drawdown, equity_curve, cumprod, cummax, scalar_add, sdiv, sub_scalar.
  cbn [map cumprod_from fadd cummax_from align fdiv].
  rewrite Hz. cbn [map fsub fneg fadd].
  eexists; eexists; split; [|reflexivity].
  field. lra.
Qed.

(** *** Series of finite values *)

(** The running product of [l] started at [a], on the rationals. *)
Fixpoint Qcumprod (a : Q) (l : list Q) : list Q :=
  match l with
  | [] => []
  | x :: l' => a * x :: Qcumprod (a * x) l'
  end.

Lemma smul_map_Fin (a b : list Q) :
  length a = length b ->
  smul (map Fin a) (map Fin b) =
  map Fin (map (fun p => fst p * snd p) (combine a b)).
Proof.
  revert b. induction a as [|x a IH]; intros [|y b] Hlen;
    try discriminate; [reflexivity|].
  cbn. f_equal. apply IH. now injection Hlen.
Qed.

Lemma cumprod_from_Fin (l : list Q) (a : Q) :
  cumprod_from (Some (Fin a)) (map Fin l) = map Fin (Qcumprod a l).
Proof.
  revert a. induction l as [|x l IH]; intros a; [reflexivity|].
  cbn. f_equal. apply IH.
Qed.

Lemma Qcumprod_zero (l : list Q) (a : Q) :
  a == 0 -> Forall (fun x => x == 0) (Qcumprod a l).
Proof.
  revert a. induction l as [|x l IH]; intros a Ha; cbn; constructor.
  - rewrite Ha. ring.
  - apply IH. rewrite Ha. ring.
Qed.

Lemma last_Forall {A : Type} (P : A -> Prop) (l : list A) (d : A) :
  Forall P l -> P d -> P (last l d).
Proof.
  induction 1 as [|x l Hx Hl IH]; intros Hd; [assumption|].
  destruct l as [|y l]; [assumption|].
  change (P (last (y :: l) d)). apply IH, Hd.
Qed.

Lemma last_map {A B : Type} (f : A -> B) (l : list A) (d : A) :
  last (map f l) (f d) = f (last l d).
Proof.
  induction l as [|x l IH]; [reflexivity|].
  destruct l as [|y l]; [reflexivity|].
  change (last (map f (y :: l)) (f d) = f (last (y :: l) d)). apply IH.
Qed.

(** A product series of finite values that starts at -1 wipes the equity
    out: the total return is -1. *)
Lemma total_return_wiped (q : Q) (p : list Q) (t : Q) :
  q == -1 ->
  iloc_last (cumprod (scalar_add (Fin 1) (map Fin (q :: p)))) = Ok (Fin t) ->
  t == 0.
Proof.
  intros Hq. unfold cumprod, scalar_add. cbn [map fadd cumprod_from iloc_last].
  rewrite map_map. cbn [fadd].
  rewrite <- (map_map (fun x => 1 + x) Fin), cumprod_from_Fin, last_map.
  intros H. injection H as <-.
  apply (last_Forall (fun x => x == 0)).
  - apply Qcumprod_zero. lra.
  - lra.
Qed.

(** Subtracting a non-positive drawdown, weighted by 0.3, never lowers the
    score below the total return. *)
Lemma score_above_return (t : Q) (mdd : pyfloat) :
  fleb mdd (Fin 0) = true ->
  fleb (Fin t) (fsub (Fin t) (fmul (Fin (3 # 10)) mdd)) = true.
Proof.
  destruct mdd as [m| | |]; intros H; try discriminate H.
  - apply fleb_Fin in H. cbn [fmul fsub fneg fadd]. apply fleb_Fin. lra.
  - reflexivity.
Qed.

Lemma align_nonempty (op : pyfloat -> pyfloat -> pyfloat) (a b : Series) :
  a <> [] \/ b <> [] -> align op a b <> [].
Proof.
  destruct a, b; cbn; intros [H|H]; congruence.
Qed.

Lemma cumprod_nonempty (s : Series) : s <> [] -> cumprod s <> [].
Proof.
  destruct s as [|x s]; [congruence|].
  intros _. unfold cumprod. destruct x; cbn; congruence.
Qed.

Lemma iloc_last_nonempty (s : Series) :
  s <> [] -> exists x, iloc_last s = Ok x.
Proof.
  destruct s as [|x s]; [congruence|]. intros _. cbn. eauto.
Qed.

Lemma total_return_defined (signal returns : Series) :
  signal <> [] \/ returns <> [] ->
  exists t, total_return signal returns = Ok t.
Proof.
  intros H. unfold total_return.
  destruct (iloc_last_nonempty
              (cumprod (scalar_add (Fin 1) (smul returns signal)))) as [x Hx].
  - apply cumprod_nonempty. unfold scalar_add.
    intros E. apply map_eq_nil in E. revert E.
    apply align_nonempty. tauto.
  - rewrite Hx. cbn. eauto.
Qed.

(** *** Finite, index-aligned series *)

(** The equity curve of the finite period returns [l]. *)
Definition Qequity (l : list Q) : list Q :=
  match l with
  | [] => []
  | x :: l' => (1 + x) :: Qcumprod (1 + x) (map (fun y => 1 + y) l')
  end.

Lemma equity_curve_Fin (l : list Q) :
  equity_curve (map Fin l) = map Fin (Qequity l).
Proof.
  destruct l as [|x l]; [reflexivity|].
  unfold equity_curve, cumprod, scalar_add. cbn [map fadd cumprod_from Qequity].
  f_equal. rewrite map_map.
  rewrite <- (map_map (fun y => 1 + y) Fin). apply cumprod_from_Fin.
Qed.

Lemma total_return_Fin (sq rq : list Q) :
  length sq = length rq -> sq <> [] ->
  exists t, total_return (map Fin sq) (map Fin rq) = Ok (Fin t) /\
            exists x l,
              Qequity (map (fun p => fst p * snd p) (combine rq sq)) = x :: l /\
              t = last l x + - (1).
Proof.
  intros Hlen Hne. unfold total_return.
  rewrite smul_map_Fin by (symmetry; exact Hlen).
  fold (equity_curve
          (map Fin (map (fun p => fst p * snd p) (combine rq sq)))).
  rewrite equity_curve_Fin.
  destruct sq as [|s sq]; [congruence|].
  destruct rq as [|r rq]; [discriminate Hlen|].
  cbn [combine map Qequity iloc_last rbind fst snd].
  rewrite last_map. cbn [fsub fneg fadd].
  eexists. split; [reflexivity|]. eexists; eexists. split; reflexivity.
Qed.








(* ------------------------------------------------------------------ *)
(** ** The three tiers of [fitness_function] *)

(** [fitness_function] branches on the total return of the pair. *)
Lemma fitness_function_tiers (signal returns : Series) :
  fitness_function signal returns =
  (total_ret <- total_return signal returns ;;
   if fltb total_ret (Fin 0) then Ok FLOOR
   else if fltb total_ret (Fin (3 # 10)) then Ok (fmul (Fin (-1000)) total_ret)
   else Ok (fsub total_ret
              (fmul (Fin (3 # 10)) (max_drawdown (smul returns signal)))))%result.
Proof.
  unfold fitness_function, total_return.
  destruct (iloc_last _); reflexivity.
Qed.

Lemma max_drawdown_head_nonpositive (q : Q) (rest : Series) :
  ~ q == -1 ->
  fleb (max_drawdown (Fin q :: rest)) (Fin 0) = true.
Proof.
  intros Hq.
  destruct (max_drawdown_head q rest Hq) as (d & tail & Hd & ->).
  apply (fleb_Fin_r _ d 0 Hd), smin_head.
Qed.

(** The threshold-cleared tier on finite, index-aligned series. *)
Lemma cleared_tier (sq rq : list Q) (t : Q) :
  length sq = length rq ->
  total_return (map Fin sq) (map Fin rq) = Ok (Fin t) ->
  3 # 10 <= t ->
  let mdd := max_drawdown (smul (map Fin rq) (map Fin sq)) in
  fleb mdd (Fin 0) = true /\
  fitness_function (map Fin sq) (map Fin rq)
    = Ok (fsub (Fin t) (fmul (Fin (3 # 10)) mdd)) /\
  fleb (Fin t) (fsub (Fin t) (fmul (Fin (3 # 10)) mdd)) = true.
Proof.
  intros Hlen Ht Hthr mdd.
  assert (Hm : fleb mdd (Fin 0) = true).
  { subst mdd. revert Ht. unfold total_return.
    rewrite smul_map_Fin by (symmetry; exact Hlen).
    destruct (map (fun p => fst p * snd p) (combine rq sq)) as [|q p] eqn:Ep.
    - cbn. discriminate.
    - intros Ht. apply max_drawdown_head_nonpositive. intros Hq.
      destruct (iloc_last (cumprod (scalar_add (Fin 1) (map Fin (q :: p)))))
        as [x|e] eqn:El; [|discriminate Ht].
      cbn [rbind] in Ht. destruct x as [x| | |]; try discriminate Ht.
      pose proof (total_return_wiped q p x Hq El) as Hx.
      cbn [fsub fneg fadd] in Ht. injection Ht as <-. lra. }
  split; [exact Hm|]. split.
  - rewrite fitness_function_tiers, Ht. cbn [rbind]. fold mdd.
    assert (E0 : fltb (Fin t) (Fin 0) = false) by (apply fltb_Fin_false; lra).
    assert (E3 : fltb (Fin t) (Fin (3 # 10)) = false)
      by (apply fltb_Fin_false; lra).
    now rewrite E0, E3.
  - apply score_above_return, Hm.
Qed.

Lemma fltb_below (b a : Q) (y : pyfloat) :
  b < a -> fleb (Fin a) y = true -> fltb (Fin b) y = true.
Proof.
  intros Hlt. destruct y as [q| | |]; intros H; try discriminate H.
  - apply fleb_Fin in H. apply fltb_Fin. lra.
  - reflexivity.
Qed.

(** C3: for a non-empty signal/target pair the total return is defined, and
    whenever it is strictly negative the fitness is exactly the failure
    floor -1e9, whatever the size of the loss and whatever the drawdown. *)
Theorem fitness_negative_return_is_floor :
  forall signal returns : Series,
    signal <> [] \/ returns <> [] ->
    exists t,
      total_return signal returns = Ok t /\
      (fltb t (Fin 0) = true -> fitness_function signal returns = Ok FLOOR).
Proof.
  intros signal returns Hne.
  destruct (total_return_defined signal returns Hne) as [t Ht].
  exists t. split; [assumption|].
  intros Hneg. rewrite fitness_function_tiers, Ht. cbn [rbind].
  now rewrite Hneg.
Qed.

(** C1 (what the code does): between two pairs whose total returns lie in
    [0, 0.30), the one with the larger total return gets the strictly
    SMALLER fitness, because the middle tier returns [-1000 * total_ret];
    and a pair in that tier gets a strictly smaller fitness than any
    finite, index-aligned pair whose total return is >= 0.30. *)
Theorem fitness_sub_threshold_decreasing :
  (forall (s1 r1 s2 r2 : Series) (t1 t2 : Q),
      total_return s1 r1 = Ok (Fin t1) ->
      total_return s2 r2 = Ok (Fin t2) ->
      0 <= t1 -> t1 < t2 -> t2 < 3 # 10 ->
      exists f1 f2,
        fitness_function s1 r1 = Ok (Fin f1) /\
        fitness_function s2 r2 = Ok (Fin f2) /\
        f1 == -1000 * t1 /\ f2 == -1000 * t2 /\
        f2 < f1) /\
  (forall (s1 r1 : Series) (t1 : Q) (sq rq : list Q) (t2 : Q),
      total_return s1 r1 = Ok (Fin t1) ->
      0 <= t1 -> t1 < 3 # 10 ->
      length sq = length rq ->
      total_return (map Fin sq) (map Fin rq) = Ok (Fin t2) ->
      3 # 10 <= t2 ->
      exists f1 f2,
        fitness_function s1 r1 = Ok (Fin f1) /\
        fitness_function (map Fin sq) (map Fin rq) = Ok f2 /\
        fltb (Fin f1) f2 = true).
Proof.
  split.
  - intros s1 r1 s2 r2 t1 t2 H1 H2 H0 H12 H3.
    rewrite !fitness_function_tiers, H1, H2. cbn [rbind].
    assert (E1 : fltb (Fin t1) (Fin 0) = false) by (apply fltb_Fin_false; lra).
    assert (E2 : fltb (Fin t2) (Fin 0) = false) by (apply fltb_Fin_false; lra).
    assert (L1 : fltb (Fin t1) (Fin (3 # 10)) = true) by (apply fltb_Fin; lra).
    assert (L2 : fltb (Fin t2) (Fin (3 # 10)) = true) by (apply fltb_Fin; lra).
    rewrite E1, E2, L1, L2. cbn [fmul].
    eexists; eexists. repeat split; try reflexivity. lra.
  - intros s1 r1 t1 sq rq t2 H1 H0 H3 Hlen H2 Hthr.
    destruct (cleared_tier sq rq t2 Hlen H2 Hthr) as (_ & Hfit & Hle).
    rewrite Hfit, fitness_function_tiers, H1. cbn [rbind].
    assert (E1 : fltb (Fin t1) (Fin 0) = false) by (apply fltb_Fin_false; lra).
    assert (L1 : fltb (Fin t1) (Fin (3 # 10)) = true) by (apply fltb_Fin; lra).
    rewrite E1, L1. cbn [fmul].
    eexists; eexists. repeat split.
    apply (fltb_below (-1000 * t1) t2); [lra | exact Hle].
Qed.

(** C2 (what the code does): on the threshold-cleared tier the fitness is
    exactly [total_ret - 0.3 * mdd], with [mdd] the (non-positive) value
    returned by [max_drawdown].  It grows with the total return, and it
    grows with the depth of the drawdown as well: of two pairs with the
    same total return, the one with the deeper peak-to-trough decline gets
    the strictly LARGER fitness. *)
Theorem fitness_threshold_rewards_drawdown :
  forall (s1 r1 s2 r2 : Series) (t1 t2 m1 m2 : Q),
    total_return s1 r1 = Ok (Fin t1) ->
    total_return s2 r2 = Ok (Fin t2) ->
    3 # 10 <= t1 -> t1 <= t2 ->
    max_drawdown (smul r1 s1) = Fin m1 ->
    max_drawdown (smul r2 s2) = Fin m2 ->
    m2 <= m1 ->
    exists f1 f2,
      fitness_function s1 r1 = Ok (Fin f1) /\
      fitness_function s2 r2 = Ok (Fin f2) /\
      f1 == t1 - (3 # 10) * m1 /\ f2 == t2 - (3 # 10) * m2 /\
      f1 <= f2 /\
      (t1 < t2 -> f1 < f2) /\
      (m2 < m1 -> f1 < f2).
Proof.
  intros s1 r1 s2 r2 t1 t2 m1 m2 H1 H2 Ht Hle M1 M2 Hm.
  rewrite !fitness_function_tiers, H1, H2, M1, M2. cbn [rbind].
  assert (E0 : fltb (Fin t1) (Fin 0) = false) by (apply fltb_Fin_false; lra).
  assert (E3 : fltb (Fin t1) (Fin (3 # 10)) = false)
    by (apply fltb_Fin_false; lra).
  assert (E0' : fltb (Fin t2) (Fin 0) = false) by (apply fltb_Fin_false; lra).
  assert (E3' : fltb (Fin t2) (Fin (3 # 10)) = false)
    by (apply fltb_Fin_false; lra).
  rewrite E0, E3, E0', E3'. cbn [fmul fsub fneg fadd].
  eexists; eexists. repeat split; try reflexivity; try lra; intros; lra.
Qed.

(** C10, as the code has it: when the first return is a number other than
    -1 the drawdown series starts at 0, so [max_drawdown] returns a value
    at most 0; and for finite, index-aligned signal and target series the
    threshold-cleared tier never returns less than the total return. *)
Theorem max_drawdown_nonpositive :
  (forall (q : Q) (rest : Series),
      ~ q == -1 ->
      fleb (max_drawdown (Fin q :: rest)) (Fin 0) = true) /\
  (forall (sq rq : list Q) (t : Q),
      length sq = length rq ->
      total_return (map Fin sq) (map Fin rq) = Ok (Fin t) ->
      3 # 10 <= t ->
      let mdd := max_drawdown (smul (map Fin rq) (map Fin sq)) in
      fleb mdd (Fin 0) = true /\
      fitness_function (map Fin sq) (map Fin rq)
        = Ok (fsub (Fin t) (fmul (Fin (3 # 10)) mdd)) /\
      fleb (Fin t) (fsub (Fin t) (fmul (Fin (3 # 10)) mdd)) = true).
Proof.
  split; [exact max_drawdown_head_nonpositive | exact cleared_tier].
Qed.

(* ------------------------------------------------------------------ *)
(** ** Totality of the primitive set *)

Lemma try_except_ok {A : Type} (body : result A) (v : A) :
  exists a, try_except body v = Ok a.
Proof. destruct body; cbn; eauto. Qed.

Lemma py_clip10_bounds (a : pyfloat) :
  exists q, py_max (Fin (-10)) (py_min (Fin 10) a) = Fin q /\
            -10 <= q /\ q <= 10.
Proof.
  unfold py_max, py_min, fgtb.
  destruct a as [x| | |].
  - destruct (fltb (Fin x) (Fin 10)) eqn:Hhi.
    + destruct (fltb (Fin (-10)) (Fin x)) eqn:Hlo.
      * apply fltb_Fin in Hhi, Hlo. exists x. repeat split; lra.
      * exists (-10). repeat split; lra.
    + exists 10. repeat split; lra.
  - exists 10. repeat split; lra.
  - exists (-10). repeat split; lra.
  - exists 10. repeat split; lra.
Qed.

Lemma clip10_bounds (lm : libm) (a : pyfloat) :
  exists q, clip10 a = Ok (Fin q) /\ -10 <= q /\ q <= 10.
Proof.
  destruct (py_clip10_bounds a) as (q & E & Hq).
  exists q. unfold clip10. rewrite E. cbn. tauto.
Qed.

Lemma sigmoid_safe_finite (lm : libm) (a : pyfloat) :
  exists q, sigmoid_safe lm a = Ok (Fin q).
Proof.
  destruct (clip10_bounds lm a) as (c & Ec & Hlo & Hhi).
  unfold sigmoid_safe. rewrite Ec. cbn [rbind fneg math_exp].
  assert (Hov : Qltb exp_overflow (- c) = false).
  { apply Qltb_false. unfold exp_overflow.
    apply Qle_trans with 10; [lra|]. unfold Qle; cbn; lia. }
  rewrite Hov. cbn [rbind fadd]. unfold py_div. cbn [feqb].
  destruct (Qeqb (1 + exp_fin lm (- c)) 0) eqn:Ez.
  - cbn [try_except]. eauto.
  - cbn [fdiv try_except]. rewrite Ez. eauto.
Qed.

Lemma apply2_total (f : Prim.binary) (a b : pyfloat) :
  exists v, apply2 f a b = Ok v.
Proof.
  destruct f; cbn [apply2]; eauto.
  - unfold fneb, py_div. destruct (feqb b (Fin 0)); cbn; eauto.
  - apply try_except_ok.
Qed.

Lemma apply1_total (lm : libm) (f : Prim.unary) (a : pyfloat) :
  exists v, apply1 lm f a = Ok v.
Proof.
  destruct f; cbn [apply1]; eauto; apply try_except_ok.
Qed.

(** The unguarded arithmetic: an operand that is not finite gives a
    result that is not finite. *)
Lemma arithmetic_propagates (f : Prim.binary) (a b : pyfloat) :
  f = Prim.add \/ f = Prim.sub \/ f = Prim.mul ->
  is_finite a = false \/ is_finite b = false ->
  exists v, apply2 f a b = Ok v /\ is_finite v = false.
Proof.
  intros Hf Hab.
  destruct Hf as [->|[->| ->]]; (eexists; split; [reflexivity|]);
    unfold fsub;
    destruct a as [x| | |], b as [y| | |];
    destruct Hab as [H|H]; try discriminate H; cbn;
    unfold inf_times;
    repeat match goal with
           | |- context [if ?c then _ else _] => destruct c
           end; reflexivity.
Qed.

(** C4, as the code has it: no registered primitive ever raises, whatever
    the scalar it is given (finite, infinite or NaN); [clip10] and
    [sigmoid] moreover always return a finite number, and the one returned
    by [clip10] lies in [-10, 10].  The unguarded [add], [sub], [mul] and
    [abs] return a value that is not finite whenever an operand is not
    finite, and [tanh] and [sign] return NaN on NaN. *)
Theorem primitives_never_raise :
  forall lm : libm,
    (forall (f : Prim.binary) (a b : pyfloat),
        exists v, apply2 f a b = Ok v) /\
    (forall (f : Prim.unary) (a : pyfloat),
        exists v, apply1 lm f a = Ok v) /\
    (forall a : pyfloat,
        exists q, apply1 lm Prim.clip10 a = Ok (Fin q) /\
                  -10 <= q /\ q <= 10) /\
    (forall a : pyfloat,
        exists q, apply1 lm Prim.sigmoid a = Ok (Fin q)) /\
    (forall (f : Prim.binary) (a b : pyfloat),
        f = Prim.add \/ f = Prim.sub \/ f = Prim.mul ->
        is_finite a = false \/ is_finite b = false ->
        exists v, apply2 f a b = Ok v /\ is_finite v = false) /\
    (forall a : pyfloat,
        is_finite a = false ->
        exists v, apply1 lm Prim.abs a = Ok v /\ is_finite v = false) /\
    apply1 lm Prim.tanh NaN = Ok NaN /\
    apply1 lm Prim.sign NaN = Ok NaN.
Proof.
  intros lm. split; [|split; [|split; [|split; [|split; [|split; [|split]]]]]].
  - apply apply2_total.
  - apply apply1_total.
  - intros a. apply (clip10_bounds lm).
  - intros a. apply sigmoid_safe_finite.
  - apply arithmetic_propagates.
  - intros a Ha. exists (fabs a). split; [reflexivity|].
    destruct a; [discriminate Ha | reflexivity | reflexivity | reflexivity].
  - reflexivity.
  - reflexivity.
Qed.

(* ------------------------------------------------------------------ *)
(** ** The compiled signal *)



Lemma mapM_length {A B : Type} (f : A -> result B) (l : list A) (bs : list B) :
  mapM f l = Ok bs -> length bs = length l.
Proof.
  revert bs. induction l as [|a l IH]; cbn [mapM]; intros bs H.
  - injection H as <-. reflexivity.
  - destruct (f a); [|discriminate].
    destruct (mapM f l) as [bs'|]; [|discriminate].
    injection H as <-. cbn. now rewrite (IH bs').
Qed.

Lemma mapM_map {A B C : Type} (g : A -> B) (f : B -> result C) (l : list A) :
  mapM f (map g l) = mapM (fun a => f (g a)) l.
Proof.
  induction l as [|a l IH]; [reflexivity|]. cbn [map mapM]. now rewrite IH.
Qed.


(** *** Looking the feature columns up *)




Lemma columns_present (cols feat_cols : list String.string) :
  incl feat_cols cols ->
  forallb (fun name => existsb (String.eqb name) cols) feat_cols = true.
Proof.
  intros H. apply forallb_forall. intros name Hn.
  apply existsb_exists. exists name.
  split; [apply H, Hn | apply String.eqb_refl].
Qed.

(** The signal, row by row: the score of the tree on the values selected
    from the row, then the decision on the score. *)
Lemma compile_individual_rows (lm : libm) (ind : PrimitiveTree)
  (feat_cols : list String.string) (X : DataFrame) :
  incl feat_cols (columns X) ->
  compile_individual lm ind feat_cols X =
  (raw <- mapM (fun row =>
                  gp_compile lm ind (length feat_cols)
                    (flat_map (fun name => column_values name (columns X) row)
                       feat_cols))
            (rows X) ;;
   Ok (map (fun r =>
              if fgtb (fdiv (Fin 1)
                         (fadd (Fin 1)
                            (np_exp lm
                               (fneg (np_clip r (Fin (-10)) (Fin 10))))))
                   (Fin (55 # 100))
              then Fin 1 else Fin 0)
         raw))%result.
Proof.
  intros Hincl. unfold compile_individual, select_values.
  rewrite (columns_present _ _ Hincl). cbn [rbind]. rewrite mapM_map.
  destruct (mapM _ (rows X)) as [raw|e]; [|reflexivity].
  cbn [rbind]. now rewrite map_map.
Qed.


(* ------------------------------------------------------------------ *)
(** ** The loop and the generator

    A computation is [uniform] when what it returns, the generator state
    it leaves and the lines it prints depend on the world it starts in
    through the generator state only. *)

Section Uniform.

Context {G : Type}.










Variable lib : deap G.







End Uniform.

(* ------------------------------------------------------------------ *)
(** ** What one generation does *)

(** The library with another selection operator in place of
    [tools.selTournament]. *)
Definition with_selTournament {G : Type} (lib : deap G)
  (sel : list (PrimitiveTree * pyfloat) -> nat -> nat -> G
         -> list PrimitiveTree * G) : deap G :=
  {| seed := seed G lib;
     random := random G lib;
     genFull := genFull G lib;
     cxOnePoint := cxOnePoint G lib;
     mutUniform := mutUniform G lib;
     selTournament := sel;
     hof_update := hof_update G lib |}.


Section Generation.

Context {G : Type}.
Variable lib : deap G.

Definition total {A : Type} (m : M G A) : Prop :=
  forall w, exists a w', m w = (Ok a, w').

Lemma total_with_rng {A : Type} (f : G -> A * G) : total (with_rng f).
Proof.
  intros w. unfold with_rng. destruct (f (rng w)) as [a g]. eauto.
Qed.

Lemma initRepeat_length {A : Type} (func : M G A) (n : nat) :
  total func ->
  forall w, exists l w', initRepeat func n w = (Ok l, w') /\ length l = n.
Proof.
  intros Hf. induction n as [|n IH]; intros w; cbn [initRepeat].
  - exists [], w. split; reflexivity.
  - unfold bind. destruct (Hf w) as (a & w1 & ->).
    destruct (IH w1) as (l & w2 & -> & Hlen).
    exists (a :: l), w2. split; [reflexivity|]. cbn. now rewrite Hlen.
Qed.

Definition total_toolbox (toolbox : Toolbox G) : Prop :=
  (forall a b, total (mate G toolbox a b)) /\
  (forall a, total (mutate G toolbox a)).

Lemma mate_pairs_length (toolbox : Toolbox G) (cxpb : Q) :
  total_toolbox toolbox ->
  forall l w, exists l' w',
    mate_pairs lib toolbox cxpb l w = (Ok l', w') /\ length l' = length l.
Proof.
  intros [Hmate _].
  assert (H : forall l,
             (forall w, exists l' w',
                 mate_pairs lib toolbox cxpb l w = (Ok l', w') /\
                 length l' = length l) /\
             (forall a w, exists l' w',
                 mate_pairs lib toolbox cxpb (a :: l) w = (Ok l', w') /\
                 length l' = S (length l))).
  { induction l as [|b rest [IH1 IH2]].
    - split; [intros w; exists [], w | intros a w; exists [a], w];
        split; reflexivity.
    - split; [apply IH2|]. intros a w. cbn [mate_pairs]. unfold bind at 1.
      destruct (total_with_rng (random G lib) w) as (r & w1 & ->).
      unfold bind at 1.
      assert (Hab : exists ab w2,
                 (if Qltb r cxpb then mate G toolbox a b else ret (a, b)) w1
                 = (Ok ab, w2)).
      { destruct (Qltb r cxpb); [apply Hmate | unfold ret; eauto]. }
      destruct Hab as (ab & w2 & ->). unfold bind at 1.
      destruct (IH1 w2) as (rest' & w3 & -> & Hlen).
      eexists; eexists. split; [reflexivity|]. cbn. now rewrite Hlen. }
  intros l. apply H.
Qed.

Lemma mutate_each_length (toolbox : Toolbox G) (mutpb : Q) :
  total_toolbox toolbox ->
  forall l w, exists l' w',
    mutate_each lib toolbox mutpb l w = (Ok l', w') /\ length l' = length l.
Proof.
  intros [_ Hmut]. induction l as [|a rest IH]; intros w; cbn [mutate_each].
  - exists [], w. split; reflexivity.
  - unfold bind at 1.
    destruct (total_with_rng (random G lib) w) as (r & w1 & ->).
    unfold bind at 1.
    assert (Ha : exists a' w2,
               (if Qltb r mutpb then mutate G toolbox a else ret a) w1
               = (Ok a', w2)).
    { destruct (Qltb r mutpb); [apply Hmut | unfold ret; eauto]. }
    destruct Ha as (a' & w2 & ->). unfold bind at 1.
    destruct (IH w2) as (rest' & w3 & -> & Hlen).
    eexists; eexists. split; [reflexivity|]. cbn. now rewrite Hlen.
Qed.

Lemma varAnd_length (toolbox : Toolbox G) (cxpb mutpb : Q) :
  total_toolbox toolbox ->
  forall pop w, exists pop' w',
    varAnd lib pop toolbox cxpb mutpb w = (Ok pop', w') /\
    length pop' = length pop.
Proof.
  intros Htb pop w. unfold varAnd, bind.
  destruct (mate_pairs_length toolbox cxpb Htb pop w) as (l & w1 & -> & H1).
  destruct (mutate_each_length toolbox mutpb Htb l w1) as (l' & w2 & -> & H2).
  exists l', w2. split; [reflexivity | congruence].
Qed.

Lemma total_make_toolbox (lm : libm) train_X train_y :
  total_toolbox (make_toolbox lib lm train_X train_y).
Proof. split; intros; cbn; apply total_with_rng. Qed.

(** One turn of the loop, once variation, evaluation and the statistics
    have gone through. *)
Lemma generations_step (toolbox : Toolbox G) val_X val_y
  remaining gen pop hof w pop' w1 fits mx :
  varAnd lib pop toolbox (1 # 2) (4 # 10) w = (Ok pop', w1) ->
  mapM (evaluate G toolbox) pop' = Ok fits ->
  np_max fits = Ok mx ->
  generations lib toolbox val_X val_y (S remaining) gen pop hof w =
  let hof' := hof_update G lib 10 hof (combine pop' fits) in
  let w2 := emit w1 (GenLine gen mx (np_mean fits)) in
  match validation_return toolbox hof' val_X val_y with
  | Raise e => (Raise e, w2)
  | Ok v =>
      if fgeb v (Fin (8 # 10)) then (Ok hof', emit w2 EarlyStopLine)
      else generations lib toolbox val_X val_y remaining (S gen) pop' hof' w2
  end.
Proof.
  intros Hvar Hfits Hmx. cbn [generations]. unfold bind at 1. rewrite Hvar.
  unfold bind at 1, lift at 1. rewrite Hfits.
  unfold bind at 1, lift at 1. rewrite Hmx.
  unfold bind at 1, print at 1.
  unfold bind at 1, lift at 1. cbv zeta.
  destruct (validation_return toolbox _ val_X val_y) as [v|e]; [|reflexivity].
  destruct (fgeb v (Fin (8 # 10))); reflexivity.
Qed.

(** A raise in the fitness evaluation leaves the loop at once. *)
Lemma generations_raise (toolbox : Toolbox G) val_X val_y
  remaining gen pop hof w pop' w1 e :
  varAnd lib pop toolbox (1 # 2) (4 # 10) w = (Ok pop', w1) ->
  mapM (evaluate G toolbox) pop' = Raise e ->
  generations lib toolbox val_X val_y (S remaining) gen pop hof w
  = (Raise e, w1).
Proof.
  intros Hvar Hfits. cbn [generations]. unfold bind at 1. rewrite Hvar.
  unfold bind at 1, lift at 1. now rewrite Hfits.
Qed.

End Generation.

(* ------------------------------------------------------------------ *)
(** ** Selection, early stopping and input checks in [evolve] *)

Section SelectionUnused.

Context {G : Type}.
Variables lib1 lib2 : deap G.
Variables toolbox1 toolbox2 : Toolbox G.

Hypothesis same_random : random G lib1 = random G lib2.
Hypothesis same_hof_update : hof_update G lib1 = hof_update G lib2.
Hypothesis same_mate : mate G toolbox1 = mate G toolbox2.
Hypothesis same_mutate : mutate G toolbox1 = mutate G toolbox2.
Hypothesis same_evaluate : evaluate G toolbox1 = evaluate G toolbox2.
Hypothesis same_compile : compile G toolbox1 = compile G toolbox2.

Lemma mate_pairs_ext (cxpb : Q) (l : list PrimitiveTree) (w : world G) :
  mate_pairs lib1 toolbox1 cxpb l w = mate_pairs lib2 toolbox2 cxpb l w.
Proof.
  revert w.
  assert (H : forall l,
             (forall w, mate_pairs lib1 toolbox1 cxpb l w
                        = mate_pairs lib2 toolbox2 cxpb l w) /\
             (forall a w, mate_pairs lib1 toolbox1 cxpb (a :: l) w
                          = mate_pairs lib2 toolbox2 cxpb (a :: l) w)).
  { clear l. induction l as [|b rest [IH1 IH2]].
    - split; reflexivity.
    - split; [apply IH2|]. intros a w. cbn [mate_pairs].
      rewrite same_random, same_mate. unfold bind.
      destruct (with_rng (random G lib2) w) as [[r|e] w1]; [|reflexivity].
      destruct ((if Qltb r cxpb then mate G toolbox2 a b else ret (a, b)) w1)
        as [[ab|e] w2]; [|reflexivity].
      now rewrite IH1. }
  apply H.
Qed.

Lemma mutate_each_ext (mutpb : Q) (l : list PrimitiveTree) (w : world G) :
  mutate_each lib1 toolbox1 mutpb l w = mutate_each lib2 toolbox2 mutpb l w.
Proof.
  revert w. induction l as [|a rest IH]; intros w; [reflexivity|].
  cbn [mutate_each]. rewrite same_random, same_mutate. unfold bind.
  destruct (with_rng (random G lib2) w) as [[r|e] w1]; [|reflexivity].
  destruct ((if Qltb r mutpb then mutate G toolbox2 a else ret a) w1)
    as [[a'|e] w2]; [|reflexivity].
  now rewrite IH.
Qed.

Lemma varAnd_ext (cxpb mutpb : Q) (pop : list PrimitiveTree) (w : world G) :
  varAnd lib1 pop toolbox1 cxpb mutpb w = varAnd lib2 pop toolbox2 cxpb mutpb w.
Proof.
  unfold varAnd, bind. rewrite mate_pairs_ext.
  destruct (mate_pairs lib2 toolbox2 cxpb pop w) as [[l|e] w1]; [|reflexivity].
  apply mutate_each_ext.
Qed.

Lemma generations_ext val_X val_y remaining gen pop hof (w : world G) :
  generations lib1 toolbox1 val_X val_y remaining gen pop hof w =
  generations lib2 toolbox2 val_X val_y remaining gen pop hof w.
Proof.
  revert gen pop hof w.
  induction remaining as [|k IH]; intros gen pop hof w; [reflexivity|].
  cbn [generations]. unfold bind at 1. unfold bind at 6.
  rewrite varAnd_ext.
  destruct (varAnd lib2 pop toolbox2 (1 # 2) (4 # 10) w) as [[pop'|e] w1];
    [|reflexivity].
  unfold validation_return.
  rewrite same_evaluate, same_hof_update, same_compile.
  unfold bind, lift, print.
  destruct (mapM (evaluate G toolbox2) pop') as [fits|e]; [|reflexivity].
  destruct (np_max fits) as [mx|e]; [|reflexivity].
  match goal with
  | |- match ?r with _ => _ end = _ => destruct r as [v|e]; [|reflexivity]
  end.
  destruct (fgeb v (Fin (8 # 10))); [reflexivity|]. apply IH.
Qed.

End SelectionUnused.

(** C6 (what the code does): the selection operator registered in the
    toolbox is never called; [evolve] run with any other selection operator
    in place of the tournament gives the very same result, generator
    state and output.  The next population is [varAnd] of the whole
    current population. *)
Theorem evolve_never_selects :
  forall (G : Type) (lib : deap G)
         (sel : list (PrimitiveTree * pyfloat) -> nat -> nat -> G
                -> list PrimitiveTree * G)
         (lm : libm) (train_X : DataFrame) (train_y : Series)
         (val_X : DataFrame) (val_y : Series) (w : world G),
    evolve (with_selTournament lib sel) lm train_X train_y val_X val_y w =
    evolve lib lm train_X train_y val_X val_y w.
Proof.
  intros G lib sel lm train_X train_y val_X val_y w.
  unfold evolve, bind.
  change (population G
            (make_toolbox (with_selTournament lib sel) lm train_X train_y))
    with (population G (make_toolbox lib lm train_X train_y)).
  destruct (population G (make_toolbox lib lm train_X train_y) 400 w)
    as [[pop|e] w1]; [|reflexivity].
  rewrite (generations_ext (with_selTournament lib sel) lib
             (make_toolbox (with_selTournament lib sel) lm train_X train_y)
             (make_toolbox lib lm train_X train_y));
    reflexivity.
Qed.



Lemma evaluate_empty_training {G : Type} (lib : deap G) (lm : libm)
  (train_X : DataFrame) (ind : PrimitiveTree) :
  rows train_X = [] ->
  evaluate G (make_toolbox lib lm train_X []) ind = Raise IndexError.
Proof.
  intros Hrows. cbn [make_toolbox evaluate].
  rewrite compile_individual_rows by apply incl_refl.
  rewrite Hrows. reflexivity.
Qed.

Lemma validation_return_empty {G : Type} (toolbox : Toolbox G) (lm : libm)
  (feat_cols : list String.string) (hof : HallOfFame) (val_X : DataFrame) :
  compile G toolbox = (fun ind => compile_individual lm ind feat_cols) ->
  columns val_X = feat_cols ->
  rows val_X = [] ->
  validation_return toolbox hof val_X [] = Raise IndexError.
Proof.
  intros Hc Hcols Hrows. unfold validation_return. rewrite Hc.
  destruct hof as [|[best f] hof]; [reflexivity|]. cbn [hof_first rbind].
  rewrite compile_individual_rows by (rewrite Hcols; apply incl_refl).
  rewrite Hrows. reflexivity.
Qed.

(** C8, as the code has it: [evolve] checks nothing before it starts.  It
    always builds its population of 400 and varies it; with an empty
    training split the IndexError comes from the first fitness evaluation
    of generation 0, and with an empty validation split it comes from the
    first early-stop check, after generation 0 has been evaluated, merged
    into the Hall of Fame and printed. *)
Theorem evolve_checks_nothing_up_front :
  forall (G : Type) (lib : deap G) (lm : libm)
         (train_X : DataFrame) (train_y : Series) (w : world G),
    let toolbox := make_toolbox lib lm train_X train_y in
    exists pop w1 pop' w2,
      population G toolbox 400 w = (Ok pop, w1) /\
      varAnd lib pop toolbox (1 # 2) (4 # 10) w1 = (Ok pop', w2) /\
      length pop' = 400%nat /\
      (rows train_X = [] -> train_y = [] ->
       forall (val_X : DataFrame) (val_y : Series),
         evolve lib lm train_X train_y val_X val_y w
         = (Raise IndexError, w2)) /\
      (forall (val_X : DataFrame) (fits : list pyfloat),
          columns val_X = columns train_X ->
          rows val_X = [] ->
          mapM (evaluate G toolbox) pop' = Ok fits ->
          exists mx,
            np_max fits = Ok mx /\
            evolve lib lm train_X train_y val_X [] w
            = (Raise IndexError, emit w2 (GenLine 0 mx (np_mean fits)))).
Proof.
  intros G lib lm train_X train_y w toolbox.
  pose proof (total_make_toolbox lib lm train_X train_y) as Htb.
  fold toolbox in Htb.
  destruct (initRepeat_length (individual G toolbox) 400
              (total_with_rng _) w) as (pop & w1 & Hpop & Hlen).
  destruct (varAnd_length lib toolbox (1 # 2) (4 # 10) Htb pop w1)
    as (pop' & w2 & Hvar & Hlen').
  exists pop, w1, pop', w2.
  split; [exact Hpop|]. split; [exact Hvar|].
  split; [congruence|]. split.
  - intros Hrows -> val_X val_y.
    unfold evolve, bind at 1. fold toolbox.
    change (population G toolbox 400 w)
      with (initRepeat (individual G toolbox) 400 w).
    rewrite Hpop. unfold bind at 1.
    assert (Hfits : mapM (evaluate G toolbox) pop' = Raise IndexError).
    { destruct pop' as [|ind pop'];
        [rewrite Hlen in Hlen'; discriminate Hlen'|].
      cbn [mapM]. subst toolbox.
      now rewrite (evaluate_empty_training lib lm train_X ind Hrows). }
    now rewrite (generations_raise lib toolbox val_X val_y 199 0 pop [] w1
                   pop' w2 IndexError Hvar Hfits).
  - intros val_X fits Hcols Hrows Hfits.
    assert (Hmx : exists mx, np_max fits = Ok mx).
    { apply mapM_length in Hfits.
      destruct fits as [|f fits]; [|cbn; eauto].
      rewrite Hlen', Hlen in Hfits. discriminate Hfits. }
    destruct Hmx as [mx Hmx]. exists mx. split; [exact Hmx|].
    unfold evolve, bind at 1. fold toolbox.
    change (population G toolbox 400 w)
      with (initRepeat (individual G toolbox) 400 w).
    rewrite Hpop. unfold bind at 1.
    rewrite (generations_step lib toolbox val_X [] 199 0 pop [] w1 pop' w2
               fits mx Hvar Hfits Hmx).
    cbv zeta.
    now rewrite (validation_return_empty toolbox lm (columns train_X) _ val_X
                   eq_refl Hcols Hrows).
Qed.

(* ------------------------------------------------------------------ *)
(** ** An instance to run the model on

    [libm_approx] computes rational approximations of the C library
    functions; [lcg_deap] implements the generator by a linear congruence
    and gives simple variation operators.  They serve to run the
    definitions above on concrete inputs. *)

(** Rounding down to a multiple of 2^-40 keeps the numbers small. *)
Definition rnd (q : Q) : Q := Qfloor (q * 1099511627776) # 1099511627776.

(** exp on the rationals: the argument is halved five times, the series
    is summed to degree 8, and the result squared five times. *)
Definition exp_series (x : Q) : Q :=
  rnd (1 + x * (1 + x / 2 * (1 + x / 3 * (1 + x / 4 * (1 + x / 5 *
      (1 + x / 6 * (1 + x / 7 * (1 + x / 8)))))))).

Definition exp_approx (q : Q) : Q :=
  let sq := fun y => rnd (y * y) in
  sq (sq (sq (sq (sq (exp_series (rnd (q / 32))))))).

Definition tanh_approx (q : Q) : Q :=
  let e := exp_approx (2 * q) in rnd ((e - 1) / (e + 1)).

(** Eight Newton steps from (q + 1) / 2. *)
Definition sqrt_approx (q : Q) : Q :=
  let step := fun y => if Qeqb y 0 then 0 else rnd ((y + q / y) / 2) in
  step (step (step (step (step (step (step (step (rnd ((q + 1) / 2))))))))).

(** log1p(q) = 2 atanh (q / (2 + q)), the series summed to degree 9. *)
Definition log1p_approx (q : Q) : Q :=
  let z := rnd (q / (2 + q)) in
  let z2 := rnd (z * z) in
  rnd (2 * z * (1 + z2 * ((1 # 3) + z2 * ((1 # 5) + z2 * ((1 # 7)
      + z2 * (1 # 9)))))).

Definition libm_approx : libm :=
  {| tanh_fin := tanh_approx;
     sqrt_fin := sqrt_approx;
     exp_fin := exp_approx;
     log1p_fin := log1p_approx |}.

Definition lcg_next (g : Z) : Z := ((1103515245 * g + 12345) mod 2147483648)%Z.

Definition lcg_random (g : Z) : Q * Z :=
  let g' := lcg_next g in (g' # 2147483648, g').

(** A tree of depth 1 over the first [n] arguments and a fresh constant. *)
Definition lcg_genFull (n min_ max_ : nat) (g : Z) : PrimitiveTree * Z :=
  let (c, g1) := lcg_random g in
  let g2 := lcg_next g1 in
  let leaf := match n with
              | O => Const c
              | S _ => Arg (Z.to_nat (g2 mod Z.of_nat n))
              end in
  let tree := match (g2 mod 3)%Z with
              | 0%Z => Call2 Prim.add leaf (Const c)
              | 1%Z => Call2 Prim.sub leaf (Const c)
              | _ => Call1 Prim.tanh leaf
              end in
  (tree, g2).

(** Swaps the first arguments of two binary calls. *)
Definition lcg_cxOnePoint (a b : PrimitiveTree) (g : Z)
  : (PrimitiveTree * PrimitiveTree) * Z :=
  match a, b with
  | Call2 f a1 a2, Call2 h b1 b2 =>
      ((Call2 f b1 a2, Call2 h a1 b2), lcg_next g)
  | _, _ => ((a, b), lcg_next g)
  end.

(** Replaces the root by a unary call on the tree. *)
Definition lcg_mutUniform (a : PrimitiveTree) (g : Z) : PrimitiveTree * Z :=
  let g' := lcg_next g in
  (match (g' mod 2)%Z with
   | 0%Z => Call1 Prim.clip10 a
   | _ => Call1 Prim.abs a
   end, g').

Definition first_k_select (inds : list (PrimitiveTree * pyfloat))
  (k tournsize : nat) (g : Z) : list PrimitiveTree * Z :=
  (map fst (firstn k inds), g).

(** Keeps the entries sorted by decreasing fitness, earlier entries first
    among equals, and at most [maxsize] of them. *)
Fixpoint hof_insert (x : PrimitiveTree * pyfloat) (hof : HallOfFame)
  : HallOfFame :=
  match hof with
  | [] => [x]
  | y :: hof' =>
      if fltb (snd y) (snd x) then x :: y :: hof' else y :: hof_insert x hof'
  end.

Definition sorted_hof_update (maxsize : nat) (hof : HallOfFame)
  (pop : list (PrimitiveTree * pyfloat)) : HallOfFame :=
  firstn maxsize (fold_left (fun h x => hof_insert x h) pop hof).

Definition lcg_deap : deap Z :=
  {| seed := Z.of_nat;
     random := lcg_random;
     genFull := lcg_genFull;
     cxOnePoint := lcg_cxOnePoint;
     mutUniform := lcg_mutUniform;
     selTournament := first_k_select;
     hof_update := sorted_hof_update |}.

(** SEED = 42; [random.seed(SEED)] runs when the module is loaded. *)
Definition SEED : nat := 42.

Definition initial_world : world Z :=
  {| rng := seed Z lcg_deap SEED; stdout := [] |}.

(* ------------------------------------------------------------------ *)
(** ** Concrete runs *)

(** Always long, on two months. *)
Definition long2 : Series := [Fin 1; Fin 1].

(** +10% against +20% in one month: fitness -100 against -200; and -100
    is below the fitness of +50% in one month. *)
Lemma fitness_sub_threshold_decreasing_witness :
  (exists f1 f2,
      fitness_function [Fin 1] [Fin (1 # 10)] = Ok (Fin f1) /\
      fitness_function [Fin 1] [Fin (1 # 5)] = Ok (Fin f2) /\
      f1 == -1000 * (1 # 10) /\ f2 == -1000 * (1 # 5) /\
      f2 < f1) /\
  (exists f1 f2,
      fitness_function [Fin 1] [Fin (1 # 10)] = Ok (Fin f1) /\
      fitness_function (map Fin [1]) (map Fin [1 # 2]) = Ok f2 /\
      fltb (Fin f1) f2 = true).
Proof.
  destruct fitness_sub_threshold_decreasing as [Hdecr Hbelow]. split.
  - apply (Hdecr [Fin 1] [Fin (1 # 10)] [Fin 1] [Fin (1 # 5)]
             (1 # 10) (1 # 5));
      [reflexivity | reflexivity | lra | lra | lra].
  - apply (Hbelow [Fin 1] [Fin (1 # 10)] (1 # 10) [1] [1 # 2] (1 # 2));
      [reflexivity | lra | lra | reflexivity | reflexivity | lra].
Defined.

(** +50% in one month against +100% then -25%: the same total return of
    50%, no drawdown against a drawdown of 25%, fitness 0.5 against
    0.575. *)
Lemma fitness_threshold_rewards_drawdown_witness :
  exists f1 f2,
    fitness_function [Fin 1] [Fin (1 # 2)] = Ok (Fin f1) /\
    fitness_function long2 [Fin 1; Fin (- (1 # 4))] = Ok (Fin f2) /\
    f1 == (1 # 2) - (3 # 10) * (0 # 6) /\
    f2 == (2 # 4) - (3 # 10) * (-2 # 8) /\
    f1 < f2.
Proof.
  destruct (fitness_threshold_rewards_drawdown
              [Fin 1] [Fin (1 # 2)] long2 [Fin 1; Fin (- (1 # 4))]
              (1 # 2) (2 # 4) (0 # 6) (-2 # 8))
    as (f1 & f2 & H1 & H2 & E1 & E2 & _ & _ & Hdeeper);
    [reflexivity | reflexivity | lra | lra | reflexivity | reflexivity | lra |].
  exists f1, f2. repeat split; try assumption. apply Hdeeper. lra.
Defined.

(** A loss of 10% in one month gets the floor. *)
Lemma fitness_negative_return_is_floor_witness :
  fitness_function [Fin 1] [Fin (- (1 # 10))] = Ok FLOOR.
Proof.
  destruct (fitness_negative_return_is_floor [Fin 1] [Fin (- (1 # 10))])
    as (t & Ht & Hfloor).
  - left. discriminate.
  - apply Hfloor. vm_compute in Ht. injection Ht as <-. reflexivity.
Defined.

(** C4, counterexample: [add] maps +Inf and 1.0 to +Inf, and [tanh] maps
    NaN to NaN: neither output is finite. *)
Lemma primitives_propagate_non_finite :
  apply2 Prim.add PInf (Fin 1) = Ok PInf /\
  is_finite PInf = false /\
  apply1 libm_approx Prim.tanh NaN = Ok NaN /\
  is_finite NaN = false.
Proof. repeat split. Qed.

(** C10, counterexample: a first return of -1 puts the equity at 0, the
    drawdown series is 0/0 - 1 throughout and its minimum is NaN. *)
Lemma max_drawdown_of_total_loss_is_nan :
  max_drawdown [Fin (-1)] = NaN /\
  fleb (max_drawdown [Fin (-1)]) (Fin 0) = false.
Proof. split; reflexivity. Qed.

Lemma max_drawdown_nonpositive_witness :
  fleb (max_drawdown [Fin 1; Fin (- (1 # 4))]) (Fin 0) = true /\
  fleb (Fin (2 # 4))
    (fsub (Fin (2 # 4))
       (fmul (Fin (3 # 10))
          (max_drawdown (smul (map Fin [1; - (1 # 4)]) (map Fin [1; 1])))))
  = true.
Proof.
  destruct max_drawdown_nonpositive as [Hhead Htier]. split.
  - apply Hhead. intros E. discriminate E.
  - apply (Htier [1; 1] [1; - (1 # 4)] (2 # 4));
      [reflexivity | reflexivity | lra].
Defined.





(** One feature, always 1; +1% a month in training. *)
Definition train1 : DataFrame :=
  {| columns := ["mom_3"%string]; rows := [[Fin 1]] |}.
Definition train1_y : Series := [Fin (1 # 100)].

(** A validation split with no row. *)
Definition no_rows : DataFrame :=
  {| columns := ["mom_3"%string]; rows := [] |}.


Definition toolbox1 : Toolbox Z :=
  make_toolbox lcg_deap libm_approx train1 train1_y.

(** C8, counterexample: with an empty validation split [evolve] raises
    IndexError only after generation 0 has been run and printed. *)
Lemma evolve_empty_validation_runs_a_generation :
  exists (w : world Z) (mx mean : pyfloat),
    evolve lcg_deap libm_approx train1 train1_y no_rows [] initial_world
    = (Raise IndexError, w) /\
    stdout w = [GenLine 0 mx mean] /\
    rng w <> rng initial_world.
Proof.
  eexists; eexists; eexists. split; [|split].
  - vm_compute. reflexivity.
  - reflexivity.
  - discriminate.
Qed.

Lemma evolve_checks_nothing_up_front_witness :
  exists (w : world Z),
    evolve lcg_deap libm_approx train1 train1_y no_rows [] initial_world
    = (Raise IndexError, w) /\
    length (stdout w) = 1%nat.
Proof.
  destruct (evolve_checks_nothing_up_front Z lcg_deap libm_approx
              train1 train1_y initial_world)
    as (pop & w1 & pop' & w2 & Hpop & Hvar & Hlen & _ & Hval).
  vm_compute in Hpop. injection Hpop as <- <-.
  vm_compute in Hvar. injection Hvar as <- <-.
  match type of Hval with
  | forall val_X fits, _ -> _ -> mapM ?f ?l = Ok fits -> _ =>
      assert (Hfits : exists fits, mapM f l = Ok fits)
        by (vm_compute; eexists; reflexivity)
  end.
  destruct Hfits as [fits Hfits].
  destruct (Hval no_rows fits eq_refl eq_refl Hfits) as (mx & _ & Hrun).
  eexists. split; [exact Hrun|]. reflexivity.
Defined.







(* ------------------------------------------------------------------ *)
(** * Further functions of [strategy_ga.py] and [metrics.py] *)

(** ** train_val_test_split *)

(** [l.iloc[:b]], [l.iloc[a:b]] and [l.iloc[a:]] on the positions of a
    list: bounds past the end are clipped. *)
Definition iloc_to {A : Type} (l : list A) (b : nat) : list A := firstn b l.
Definition iloc_slice {A : Type} (l : list A) (a b : nat) : list A :=
  firstn (b - a) (skipn a l).
Definition iloc_from {A : Type} (l : list A) (a : nat) : list A := skipn a l.

(** [int(n * c)] for a row count [n] and a positive constant [c]. *)
Definition int_times (n : nat) (c : Q) : nat :=
  Z.to_nat (Qfloor (inject_Z (Z.of_nat n) * c)).

Definition train_val_test_split (df : DataFrame) (y : Series)
  : (DataFrame * Series) * (DataFrame * Series) * (DataFrame * Series) :=
  let n := length (rows df) in
  let train_end := int_times n (6 # 10) in
  let val_end := int_times n (8 # 10) in
  (({| columns := columns df; rows := iloc_to (rows df) train_end |},
    iloc_to y train_end),
   ({| columns := columns df; rows := iloc_slice (rows df) train_end val_end |},
    iloc_slice y train_end val_end),
   ({| columns := columns df; rows := iloc_from (rows df) val_end |},
    iloc_from y val_end)).

Lemma int_times_6 (n : nat) :
  int_times n (6 # 10) = Z.to_nat (Z.of_nat n * 6 / 10).
Proof. reflexivity. Qed.

Lemma int_times_8 (n : nat) :
  int_times n (8 # 10) = Z.to_nat (Z.of_nat n * 8 / 10).
Proof. reflexivity. Qed.

Lemma split_points (n : nat) :
  (int_times n (6 # 10) <= int_times n (8 # 10) <= n)%nat.
Proof.
  rewrite int_times_6, int_times_8.
  pose proof (Z.div_le_mono (Z.of_nat n * 6) (Z.of_nat n * 8) 10) as H.
  assert (H8 : (Z.of_nat n * 8 / 10 <= Z.of_nat n)%Z).
  { apply Z.div_le_upper_bound; lia. }
  assert (H6 : (0 <= Z.of_nat n * 6 / 10)%Z) by (apply Z.div_pos; lia).
  lia.
Qed.

Lemma three_slices {A : Type} (l : list A) (a b : nat) :
  (a <= b)%nat ->
  iloc_to l a ++ iloc_slice l a b ++ iloc_from l b = l.
Proof.
  intros Hab. unfold iloc_to, iloc_slice, iloc_from.
  rewrite <- (firstn_skipn a l) at 4. f_equal.
  rewrite <- (firstn_skipn (b - a) (skipn a l)) at 2. f_equal.
  rewrite skipn_skipn. f_equal. lia.
Qed.

(** X1: the three splits are consecutive blocks of the table, in order:
    joined again they give back the rows and the targets, each keeps the
    columns of the table, and the training block holds floor(0.6 n) rows,
    training and validation together floor(0.8 n). *)
Theorem train_val_test_split_partition :
  forall (df : DataFrame) (y : Series),
    let n := length (rows df) in
    let '((train_X, train_y), (val_X, val_y), (test_X, test_y)) :=
      train_val_test_split df y in
    rows train_X ++ rows val_X ++ rows test_X = rows df /\
    train_y ++ val_y ++ test_y = y /\
    columns train_X = columns df /\
    columns val_X = columns df /\
    columns test_X = columns df /\
    (5 * length (rows train_X) <= 3 * n < 5 * length (rows train_X) + 5)%nat /\
    (5 * (length (rows train_X) + length (rows val_X)) <= 4 * n
     < 5 * (length (rows train_X) + length (rows val_X)) + 5)%nat.
Proof.
  intros df y n. cbn.
  pose proof (split_points n) as [H68 H8n]. fold n.
  repeat split; try (apply three_slices; exact H68).
  all: unfold iloc_to, iloc_slice; rewrite ?length_firstn, ?length_skipn;
    fold n; rewrite int_times_6 in *; rewrite ?int_times_8 in *;
    pose proof (Z.div_mod (Z.of_nat n * 6) 10 ltac:(lia));
    pose proof (Z.mod_pos_bound (Z.of_nat n * 6) 10 ltac:(lia));
    pose proof (Z.div_mod (Z.of_nat n * 8) 10 ltac:(lia));
    pose proof (Z.mod_pos_bound (Z.of_nat n * 8) 10 ltac:(lia));
    lia.
Qed.

(** X2: the parts of the table and of the target stay aligned, and from
    three rows on no split is empty; with one or two rows the validation
    split is empty. *)
Theorem train_val_test_split_sizes :
  forall (df : DataFrame) (y : Series),
    length y = length (rows df) ->
    let n := length (rows df) in
    let '((train_X, train_y), (val_X, val_y), (test_X, test_y)) :=
      train_val_test_split df y in
    length train_y = length (rows train_X) /\
    length val_y = length (rows val_X) /\
    length test_y = length (rows test_X) /\
    ((3 <= n)%nat ->
     rows train_X <> [] /\ rows val_X <> [] /\ rows test_X <> []) /\
    ((n <= 2)%nat -> rows val_X = [] /\ val_y = []).
Proof.
  intros df y Hy n. cbn.
  pose proof (split_points n) as [H68 H8n]. fold n.
  unfold iloc_to, iloc_slice, iloc_from.
  rewrite int_times_6 in *. rewrite int_times_8 in *.
  pose proof (Z.div_mod (Z.of_nat n * 6) 10 ltac:(lia)) as D6.
  pose proof (Z.mod_pos_bound (Z.of_nat n * 6) 10 ltac:(lia)) as M6.
  pose proof (Z.div_mod (Z.of_nat n * 8) 10 ltac:(lia)) as D8.
  pose proof (Z.mod_pos_bound (Z.of_nat n * 8) 10 ltac:(lia)) as M8.
  repeat split.
  - rewrite !length_firstn. lia.
  - rewrite !length_firstn, !length_skipn. lia.
  - rewrite !length_skipn. lia.
  - intros E. apply (f_equal (@length _)) in E.
    rewrite length_firstn in E. fold n in E. cbn in E. lia.
  - intros E. apply (f_equal (@length _)) in E.
    rewrite length_firstn, length_skipn in E. fold n in E. cbn in E. lia.
  - intros E. apply (f_equal (@length _)) in E.
    rewrite length_skipn in E. fold n in E. cbn in E. lia.
  - apply length_zero_iff_nil. rewrite length_firstn, length_skipn.
    fold n. lia.
  - apply length_zero_iff_nil. rewrite length_firstn, length_skipn. lia.
Qed.

(* ------------------------------------------------------------------ *)
(** ** The range of [max_drawdown] *)

(** The drawdown series after the equity has reached [a] with running
    peak [m], for the finite returns [l] still to come. *)
Definition dd_tail (a m : Q) (l : list Q) : Series :=
  let ec := cumprod_from (Some (Fin a)) (scalar_add (Fin 1) (map Fin l)) in
  sub_scalar (sdiv ec (cummax_from (Some (Fin m)) ec)) (Fin 1).

Lemma dd_tail_cons (a m x : Q) (l : list Q) :
  let p := a * (1 + x) in
  let m' := if Qltb m p then p else m in
  ~ m' == 0 ->
  dd_tail a m (x :: l) = Fin (p / m' + - (1)) :: dd_tail p m' l.
Proof.
  intros p m' Hm'. unfold dd_tail, scalar_add, sdiv, sub_scalar.
  cbn [map fadd cumprod_from fmul cummax_from fltb]. fold p.
  subst m'. destruct (Qltb m p) eqn:E;
    cbn [align map fdiv fsub fneg fadd];
    apply Qeqb_false in Hm'; rewrite Hm'; reflexivity.
Qed.

Lemma max_drawdown_cons (r0 : Q) (rest : list Q) :
  ~ 1 + r0 == 0 ->
  max_drawdown (map Fin (r0 :: rest)) =
  smin (Fin ((1 + r0) / (1 + r0) + - (1)) :: dd_tail (1 + r0) (1 + r0) rest).
Proof.
  intros H. apply Qeqb_false in H.
  unfold max_drawdown, equity_curve, cumprod, cummax, dd_tail,
    scalar_add, sdiv, sub_scalar.
  cbn [map fadd cumprod_from cummax_from align fdiv]. rewrite H.
  reflexivity.
Qed.

(** A drawdown entry: a number in [-1, 0]. *)
Definition dd_entry (d : pyfloat) : Prop :=
  exists q, d = Fin q /\ -1 <= q /\ q <= 0.

Lemma running_peak (a m x : Q) :
  0 < a -> a <= m -> -1 < x ->
  let p := a * (1 + x) in
  let m' := if Qltb m p then p else m in
  0 < p /\ p <= m' /\ -1 < p / m' + - (1) /\ p / m' + - (1) <= 0.
Proof.
  intros Ha Ham Hx p m'.
  assert (Hp : 0 < p) by (subst p; apply Qmult_lt_0_compat; lra).
  assert (Hpm : p <= m' /\ 0 < m').
  { subst m'. destruct (Qltb m p) eqn:E.
    - split; lra.
    - apply Qltb_false in E. split; lra. }
  destruct Hpm as [Hpm Hm'].
  assert (H0 : 0 < p / m') by (apply Qlt_shift_div_l; lra).
  assert (H1 : p / m' <= 1) by (apply Qle_shift_div_r; lra).
  repeat split; lra.
Qed.

Lemma dd_tail_range (l : list Q) :
  forall a m, 0 < a -> a <= m -> Forall (fun x => -1 < x) l ->
              Forall dd_entry (dd_tail a m l).
Proof.
  induction l as [|x l IH]; intros a m Ha Ham Hl.
  - constructor.
  - inversion Hl as [|? ? Hx Hl']; subst.
    destruct (running_peak a m x Ha Ham Hx) as (Hp & Hpm & Hlo & Hhi).
    rewrite dd_tail_cons by (cbv zeta; lra).
    constructor.
    + eexists. split; [reflexivity|]. split; lra.
    + apply IH; assumption.
Qed.

Lemma smin_range (d : pyfloat) (s : Series) :
  dd_entry d -> Forall dd_entry s -> dd_entry (smin (d :: s)).
Proof.
  intros Hd Hs. revert d Hd.
  induction Hs as [|e s He Hs IH]; intros d (q & -> & Hq).
  - cbn. exists q. tauto.
  - specialize (IH e He). destruct IH as (m & Em & Hm).
    cbn [smin] in Em |- *. rewrite Em.
    destruct (fltb (Fin m) (Fin q)); [exists m | exists q]; tauto.
Qed.

(** X3: when every return is a number above -1 (no period wipes the
    equity out), [max_drawdown] returns a number in [-1, 0], never NaN. *)
Theorem max_drawdown_range :
  forall (r0 : Q) (rest : list Q),
    Forall (fun x => -1 < x) (r0 :: rest) ->
    exists q, max_drawdown (map Fin (r0 :: rest)) = Fin q /\
              -1 <= q /\ q <= 0.
Proof.
  intros r0 rest Hall. inversion Hall as [|? ? H0 Hrest]; subst.
  rewrite max_drawdown_cons by lra.
  apply smin_range.
  - eexists. split; [reflexivity|].
    assert (E : (1 + r0) / (1 + r0) == 1) by (field; lra). lra.
  - apply dd_tail_range; [lra | lra | assumption].
Qed.

Lemma dd_tail_flat (l : list Q) :
  forall a m, 0 < a -> m == a -> Forall (fun x => 0 <= x) l ->
              Forall (fun d => exists q, d = Fin q /\ q == 0) (dd_tail a m l).
Proof.
  induction l as [|x l IH]; intros a m Ha Hma Hl.
  - constructor.
  - inversion Hl as [|? ? Hx Hl']; subst.
    set (p := a * (1 + x)). set (m' := if Qltb m p then p else m).
    assert (Hap : a <= p) by (subst p; nra).
    assert (Hm' : m' == p).
    { subst m'. destruct (Qltb m p) eqn:E; [reflexivity|].
      apply Qltb_false in E. lra. }
    rewrite dd_tail_cons by (fold p; fold m'; lra). fold p. fold m'.
    constructor.
    + eexists. split; [reflexivity|].
      assert (E1 : p / m' <= 1) by (apply Qle_shift_div_r; lra).
      assert (E2 : 1 <= p / m' ) by (apply Qle_shift_div_l; lra).
      lra.
    + apply IH; [lra | exact Hm' | assumption].
Qed.

Lemma smin_flat (s : Series) :
  Forall (fun d => exists q, d = Fin q /\ q == 0) s ->
  forall qd, qd == 0 -> exists q, smin (Fin qd :: s) = Fin q /\ q == 0.
Proof.
  induction 1 as [|c s (qc & -> & Hqc) Hs IH]; intros qd Hqd.
  - exists qd. split; [reflexivity | exact Hqd].
  - destruct (IH qc Hqc) as (m & Em & Hm).
    cbn [smin] in Em |- *. rewrite Em.
    destruct (fltb (Fin m) (Fin qd)); [exists m | exists qd];
      split; try reflexivity; assumption.
Qed.

(** X4: when no return after the first is negative, [max_drawdown] is 0,
    whatever the first return above -1: the equity curve starts at
    1 + r0, so a loss in the first period is not a drawdown. *)
Theorem max_drawdown_zero_without_later_loss :
  forall (r0 : Q) (rest : list Q),
    -1 < r0 ->
    Forall (fun x => 0 <= x) rest ->
    exists q, max_drawdown (map Fin (r0 :: rest)) = Fin q /\ q == 0.
Proof.
  intros r0 rest H0 Hrest.
  rewrite max_drawdown_cons by lra.
  apply smin_flat.
  - apply dd_tail_flat; [lra | lra | assumption].
  - field. lra.
Qed.

Lemma dd_tail_wiped (l : list Q) :
  forall a m, a == 0 -> m == 0 -> Forall (fun d => d = NaN) (dd_tail a m l).
Proof.
  induction l as [|x l IH]; intros a m Ha Hm; [constructor|].
  set (p := a * (1 + x)). set (m' := if Qltb m p then p else m).
  assert (Hp : p == 0) by (subst p; rewrite Ha; ring).
  assert (Hm' : m' == 0) by (subst m'; destruct (Qltb m p); assumption).
  assert (E : dd_tail a m (x :: l) = NaN :: dd_tail p m' l).
  { unfold dd_tail, scalar_add, sdiv, sub_scalar.
    cbn [map fadd cumprod_from fmul cummax_from fltb]. fold p.
    apply Qeqb_true in Hp, Hm'.
    subst m'. destruct (Qltb m p);
      cbn [align map fdiv fsub fneg fadd]; rewrite ?Hp, ?Hm'; reflexivity. }
  rewrite E. constructor; [reflexivity | apply IH; assumption].
Qed.

Lemma smin_all_nan (s : Series) : Forall (fun d => d = NaN) s -> smin s = NaN.
Proof.
  induction 1 as [|d s -> _ IH]; [reflexivity|]. cbn [smin]. exact IH.
Qed.

(** X20: once the first return is -1 the equity is 0 from the first
    period on, every entry of the drawdown series is 0/0 - 1, and
    [max_drawdown] returns NaN, whatever the later returns. *)
Theorem max_drawdown_after_total_loss_is_nan :
  forall (q : Q) (rest : list Q),
    q == -1 ->
    max_drawdown (map Fin (q :: rest)) = NaN.
Proof.
  intros q rest Hq.
  assert (Hz : 1 + q == 0) by (rewrite Hq; reflexivity).
  assert (E : max_drawdown (map Fin (q :: rest)) =
              smin (NaN :: dd_tail (1 + q) (1 + q) rest)).
  { unfold max_drawdown, equity_curve, cumprod, cummax, dd_tail,
      scalar_add, sdiv, sub_scalar.
    cbn [map fadd cumprod_from cummax_from align fdiv].
    apply Qeqb_true in Hz. rewrite Hz. reflexivity. }
  rewrite E. apply smin_all_nan.
  constructor; [reflexivity | apply dd_tail_wiped; exact Hz].
Qed.

(* ------------------------------------------------------------------ *)
(** ** More on [fitness_function] *)

Lemma constant_nan_snoc {A : Type} (l : list A) :
  l <> [] -> exists l', map (fun _ => NaN) l = l' ++ [NaN].
Proof.
  induction l as [|x l IH]; [congruence|]. intros _.
  destruct l as [|y l].
  - exists []. reflexivity.
  - destruct IH as [l' E]; [discriminate|].
    exists (NaN :: l'). cbn [map] in E |- *. now rewrite E.
Qed.

Lemma align_mismatch (op : pyfloat -> pyfloat -> pyfloat) (a b : Series) :
  length a <> length b -> exists l, align op a b = l ++ [NaN].
Proof.
  revert b. induction a as [|x a IH]; intros b Hlen.
  - destruct b as [|y b]; [cbn in Hlen; congruence|].
    apply (constant_nan_snoc (y :: b)). discriminate.
  - destruct b as [|y b].
    + apply (constant_nan_snoc (x :: a)). discriminate.
    + destruct (IH b) as [l E]; [cbn in Hlen; congruence|].
      exists (op x y :: l). cbn [align]. now rewrite E.
Qed.

Lemma cumprod_from_snoc_nan (l : Series) :
  forall acc, exists l', cumprod_from acc (l ++ [NaN]) = l' ++ [NaN].
Proof.
  induction l as [|x l IH]; intros acc.
  - exists []. reflexivity.
  - destruct x as [q| | |]; cbn [app cumprod_from];
      match goal with
      | |- context [cumprod_from ?a (l ++ [NaN])] =>
          destruct (IH a) as [l' ->]
      end;
      eexists (_ :: l'); reflexivity.
Qed.

Lemma iloc_last_snoc (l : Series) (x : pyfloat) :
  iloc_last (l ++ [x]) = Ok x.
Proof.
  destruct l as [|y l]; [reflexivity|].
  cbn [app iloc_last]. now rewrite last_last.
Qed.

Lemma total_return_mismatch (signal returns : Series) :
  length signal <> length returns ->
  total_return signal returns = Ok NaN.
Proof.
  intros Hlen. unfold total_return, smul, scalar_add.
  destruct (align_mismatch fmul returns signal) as [l ->]; [congruence|].
  rewrite map_app. cbn [map].
  replace (fadd (Fin 1) NaN) with NaN by reflexivity.
  destruct (cumprod_from_snoc_nan (map (fadd (Fin 1)) l) None) as [l' E].
  unfold cumprod. rewrite E, iloc_last_snoc. reflexivity.
Qed.


Lemma Qcumprod_ones (l : list Q) :
  forall a, a == 1 -> Forall (fun x => x == 1) l ->
            Forall (fun x => x == 1) (Qcumprod a l).
Proof.
  induction l as [|x l IH]; intros a Ha Hl; cbn; [constructor|].
  inversion Hl as [|? ? Hx Hl']; subst.
  assert (E : a * x == 1) by (rewrite Ha, Hx; ring).
  constructor; [exact E | apply IH; assumption].
Qed.

(** X6: a strategy that is never exposed (every product of signal and
    return is zero: the signal is all 0, or the target is all 0) has a
    total return of 0 and gets fitness 0, the top of the middle tier. *)
Theorem fitness_of_flat_strategy_is_zero :
  forall sq rq : list Q,
    length sq = length rq -> sq <> [] ->
    Forall (fun p => fst p * snd p == 0) (combine rq sq) ->
    exists t f,
      total_return (map Fin sq) (map Fin rq) = Ok (Fin t) /\ t == 0 /\
      fitness_function (map Fin sq) (map Fin rq) = Ok (Fin f) /\ f == 0.
Proof.
  intros sq rq Hlen Hne Hflat.
  destruct (total_return_Fin sq rq Hlen Hne) as (t & Ht & x & l & Eeq & ->).
  assert (H1 : Forall (fun y => y == 1) (x :: l)).
  { rewrite <- Eeq.
    destruct (map (fun p => fst p * snd p) (combine rq sq)) as [|p ps] eqn:Ep.
    - constructor.
    - assert (Hps : Forall (fun y => y == 0) (p :: ps)).
      { rewrite <- Ep. apply Forall_map. exact Hflat. }
      inversion Hps as [|? ? Hp Hps']; subst. cbn [Qequity].
      assert (E : 1 + p == 1) by lra.
      constructor; [exact E|].
      apply Qcumprod_ones; [exact E|].
      apply Forall_map. eapply Forall_impl; [|exact Hps'].
      intros y Hy. cbv beta in Hy. lra. }
  assert (Hlast : last l x == 1).
  { inversion H1 as [|? ? Hx Hl]; subst.
    apply (last_Forall (fun y => y == 1)); assumption. }
  exists (last l x + - (1)). eexists.
  split; [exact Ht|]. split; [lra|].
  rewrite fitness_function_tiers, Ht. cbn [rbind].
  assert (E0 : fltb (Fin (last l x + - (1))) (Fin 0) = false)
    by (apply fltb_Fin_false; lra).
  assert (E3 : fltb (Fin (last l x + - (1))) (Fin (3 # 10)) = true)
    by (apply fltb_Fin; lra).
  rewrite E0, E3. cbn [fmul]. split; [reflexivity|]. lra.
Qed.

Lemma fleb_trans_Fin (a t : Q) (y : pyfloat) :
  a <= t -> fleb (Fin t) y = true -> fleb (Fin a) y = true.
Proof.
  intros Hat. destruct y as [q| | |]; intros H; try discriminate H.
  - apply fleb_Fin in H. apply fleb_Fin. lra.
  - reflexivity.
Qed.

(** X7: on finite, index-aligned, non-empty series the fitness is the
    floor -1e9, or a number in (-300, 0] (middle tier), or at least 0.30
    (threshold cleared): no fitness lies strictly between 0 and 0.30, and
    none between the floor and -300. *)
Theorem fitness_range :
  forall sq rq : list Q,
    length sq = length rq -> sq <> [] ->
    exists f,
      fitness_function (map Fin sq) (map Fin rq) = Ok f /\
      (f = FLOOR \/
       (exists q, f = Fin q /\ -300 < q /\ q <= 0) \/
       fleb (Fin (3 # 10)) f = true).
Proof.
  intros sq rq Hlen Hne.
  destruct (total_return_Fin sq rq Hlen Hne) as (t & Ht & _).
  destruct (Qlt_le_dec t 0) as [Hneg|Hpos].
  - exists FLOOR. split; [|left; reflexivity].
    rewrite fitness_function_tiers, Ht. cbn [rbind].
    assert (E : fltb (Fin t) (Fin 0) = true) by (apply fltb_Fin; lra).
    now rewrite E.
  - assert (E0 : fltb (Fin t) (Fin 0) = false) by (apply fltb_Fin_false; lra).
    destruct (Qlt_le_dec t (3 # 10)) as [Hlow|Hhigh].
    + eexists. split.
      * rewrite fitness_function_tiers, Ht. cbn [rbind].
        assert (E3 : fltb (Fin t) (Fin (3 # 10)) = true)
          by (apply fltb_Fin; lra).
        rewrite E0, E3. cbn [fmul]. reflexivity.
      * right; left. eexists. split; [reflexivity|]. split; lra.
    + destruct (cleared_tier sq rq t Hlen Ht Hhigh) as (_ & Hfit & Hle).
      eexists. split; [exact Hfit|]. right; right.
      apply (fleb_trans_Fin (3 # 10) t); assumption.
Qed.

(* ------------------------------------------------------------------ *)
(** ** More on the primitives *)

(** Equality of floats as values: two finite floats are equal when their
    rationals are. *)
Definition feq (x y : pyfloat) : Prop :=
  match x, y with
  | Fin a, Fin b => a == b
  | PInf, PInf | NInf, NInf | NaN, NaN => True
  | _, _ => False
  end.

(** X8: on every input but NaN the primitive [clip10] (Python's [min] and
    [max]) returns the value [np.clip(x, -10, 10)] returns; on NaN
    [clip10] returns 10.0 where [np.clip] keeps NaN.  Clipping twice is
    clipping once. *)
Theorem clip10_agrees_with_np_clip :
  (forall x : pyfloat,
      is_nan x = false ->
      exists v, clip10 x = Ok v /\ feq v (np_clip x (Fin (-10)) (Fin 10))) /\
  (clip10 NaN = Ok (Fin 10) /\ np_clip NaN (Fin (-10)) (Fin 10) = NaN) /\
  (forall x v : pyfloat, clip10 x = Ok v -> clip10 v = Ok v).
Proof.
  split; [|split].
  - intros x Hx. unfold clip10, py_max, py_min, fgtb, np_clip.
    destruct x as [q| | |]; try discriminate Hx.
    + cbn [try_except fltb].
      destruct (Qltb q 10) eqn:Hhi, (Qltb (-10) q) eqn:Hlo,
               (Qltb q (-10)) eqn:Hlo';
        cbn [fltb]; rewrite ?Hhi, ?Hlo, ?Hlo';
        try apply Qltb_true in Hhi; try apply Qltb_false in Hhi;
        try apply Qltb_true in Hlo; try apply Qltb_false in Hlo;
        try apply Qltb_true in Hlo'; try apply Qltb_false in Hlo';
        try (exfalso; lra);
        eexists; (split; [reflexivity|]); cbn;
        repeat match goal with
               | |- context [Qltb ?a ?b] =>
                   let E := fresh "E" in
                   destruct (Qltb a b) eqn:E;
                   [apply Qltb_true in E | apply Qltb_false in E]
               end; cbn; lra.
    + eexists. split; [reflexivity|]. cbn. lra.
    + eexists. split; [reflexivity|]. cbn. lra.
  - split; reflexivity.
  - intros x v H.
    destruct (py_clip10_bounds x) as (q & E & Hlo & Hhi).
    unfold clip10 in H. rewrite E in H. cbn in H. injection H as <-.
    unfold clip10, py_max, py_min, fgtb in E |- *. cbn [try_except].
    destruct x as [x| | |]; cbn [fltb] in E.
    + destruct (Qltb x 10) eqn:Hx.
      * cbn [fltb] in E. destruct (Qltb (-10) x) eqn:Hx';
          injection E as <-; cbn [fltb]; rewrite ?Hx, ?Hx'; reflexivity.
      * injection E as <-. reflexivity.
    + injection E as <-. reflexivity.
    + injection E as <-. reflexivity.
    + injection E as <-. reflexivity.
Qed.

(** X9: the two division primitives return the same quotient a / b
    whenever |b| > 1e-6, and both return 0.0 for b = 0.  They differ on
    the other divisors: for a non-zero b with |b| <= 1e-6 [div_safe]
    still divides while [div_prot] returns 0.0, and for b = NaN
    [div_safe] returns NaN while [div_prot] returns 0.0. *)
Theorem division_primitives_agree :
  forall a b : pyfloat,
    (fgtb (fabs b) (Fin (1 # 1000000)) = true ->
     apply2 Prim.div_safe a b = Ok (fdiv a b) /\
     apply2 Prim.div_prot a b = Ok (fdiv a b)) /\
    (feqb b (Fin 0) = true ->
     apply2 Prim.div_safe a b = Ok (Fin 0) /\
     apply2 Prim.div_prot a b = Ok (Fin 0)) /\
    (feqb b (Fin 0) = false ->
     fleb (fabs b) (Fin (1 # 1000000)) = true ->
     apply2 Prim.div_safe a b = Ok (fdiv a b) /\
     apply2 Prim.div_prot a b = Ok (Fin 0)) /\
    (apply2 Prim.div_safe a NaN = Ok NaN /\
     apply2 Prim.div_prot a NaN = Ok (Fin 0)).
Proof.
  intros a b. split; [|split; [|split]].
  - intros Hbig. cbn [apply2]. unfold protected_div. rewrite Hbig.
    assert (Hz : feqb b (Fin 0) = false).
    { destruct b as [q| | |]; try reflexivity. cbn [feqb].
      apply Qeqb_false. intros E.
      unfold fgtb in Hbig. cbn [fabs] in Hbig. apply fltb_Fin in Hbig.
      rewrite E in Hbig. discriminate Hbig. }
    unfold fneb, py_div. rewrite Hz. split; reflexivity.
  - intros Hz. cbn [apply2]. unfold fneb, protected_div. rewrite Hz.
    split; [reflexivity|].
    destruct b as [q| | |]; try discriminate Hz. cbn [feqb] in Hz.
    apply Qeqb_true in Hz.
    assert (E : fgtb (fabs (Fin q)) (Fin (1 # 1000000)) = false).
    { unfold fgtb. cbn [fabs]. apply fltb_Fin_false. rewrite Hz.
      discriminate. }
    now rewrite E.
  - intros Hz Hsmall. cbn [apply2]. unfold fneb, py_div, protected_div.
    rewrite Hz. split; [reflexivity|].
    assert (E : fgtb (fabs b) (Fin (1 # 1000000)) = false).
    { destruct b as [q| | |]; try discriminate Hsmall.
      unfold fgtb. cbn [fabs] in *. apply fleb_Fin in Hsmall.
      apply fltb_Fin_false. exact Hsmall. }
    now rewrite E.
  - split; [|reflexivity].
    cbn [apply2]. unfold fneb, py_div. cbn [feqb negb].
    destruct a; reflexivity.
Qed.

Lemma Qabs_not_neg (q : Q) : Qltb (Qabs q) 0 = false.
Proof. apply Qltb_false, Qabs_nonneg. Qed.

(** X10: the guards of the protected primitives cover the whole domain:
    the guarded computation itself never raises, so the fallback of the
    [except] clause is never what [protected_log], [protected_sqrt] and
    [protected_div] return; the same holds for [sigmoid_safe] when exp is
    never negative. *)
Theorem protected_fallbacks_unreachable :
  forall (lm : libm) (x y : pyfloat),
    (protected_log lm x =
     if fleb x (Fin (- (999 # 1000))) then Ok (Fin 0) else math_log1p lm x) /\
    protected_sqrt lm x = math_sqrt lm (fabs x) /\
    (protected_div x y =
     if fgtb (fabs y) (Fin (1 # 1000000)) then py_div x y else Ok (Fin 0)) /\
    ((forall q, 0 <= exp_fin lm q) ->
     sigmoid_safe lm x =
     (c <- clip10 x ;;
      e <- math_exp lm (fneg c) ;;
      py_div (Fin 1) (fadd (Fin 1) e))%result).
Proof.
  intros lm x y. split; [|split; [|split]].
  - unfold protected_log.
    destruct x as [q| | |]; try reflexivity.
    destruct (fleb (Fin q) (Fin (- (999 # 1000)))) eqn:E; [reflexivity|].
    assert (Hq : ~ q <= - (999 # 1000)).
    { intros H. apply fleb_Fin in H. congruence. }
    cbn [math_log1p].
    assert (Hd : Qle_bool q (-1) = false).
    { destruct (Qle_bool q (-1)) eqn:L; [|reflexivity].
      apply Qle_bool_iff in L. exfalso. apply Hq. lra. }
    now rewrite Hd.
  - unfold protected_sqrt. destruct x as [q| | |]; try reflexivity.
    cbn [fabs math_sqrt]. now rewrite Qabs_not_neg.
  - unfold protected_div, fgtb, py_div.
    destruct y as [q| | |]; try reflexivity.
    cbn [fabs fltb feqb].
    destruct (Qltb (1 # 1000000) (Qabs q)) eqn:E; [|reflexivity].
    apply Qltb_true in E.
    assert (Hz : Qeqb q 0 = false).
    { apply Qeqb_false. intros H. rewrite H in E. discriminate E. }
    now rewrite Hz.
  - intros Hexp. unfold sigmoid_safe.
    destruct (clip10_bounds lm x) as (c & Ec & Hlo & Hhi).
    rewrite Ec. cbn [rbind fneg math_exp].
    assert (Hov : Qltb exp_overflow (- c) = false).
    { apply Qltb_false. unfold exp_overflow.
      apply Qle_trans with 10; [lra|]. unfold Qle; cbn; lia. }
    rewrite Hov. cbn [rbind fadd]. unfold py_div. cbn [feqb].
    assert (Hz : Qeqb (1 + exp_fin lm (- c)) 0 = false).
    { apply Qeqb_false. specialize (Hexp (- c)). lra. }
    now rewrite Hz.
Qed.

(* ------------------------------------------------------------------ *)
(** ** More on the compiled signal *)










(* ------------------------------------------------------------------ *)
(** ** metrics.cagr *)

Section Cagr.

(** [x ** y] on NumPy floats: never raises. *)
Variable np_power : pyfloat -> pyfloat -> pyfloat.

Definition cagr (returns : Series) : result pyfloat :=
  (years <- py_div (Fin (inject_Z (Z.of_nat (length returns)))) (Fin 12) ;;
   total_ret <- iloc_last (equity_curve returns) ;;
   exponent <- py_div (Fin 1) years ;;
   Ok (fsub (np_power total_ret exponent) (Fin 1)))%result.

Lemma equity_curve_nonempty (returns : Series) :
  returns <> [] -> equity_curve returns <> [].
Proof.
  intros H. unfold equity_curve. apply cumprod_nonempty.
  unfold scalar_add. intros E. apply map_eq_nil in E. contradiction.
Qed.

(** X12: [cagr] raises on an empty series only, and then it is the
    IndexError of [iloc[-1]]: the division [1 / years] is reached with at
    least one return, so it never divides by zero.  Otherwise the result
    is the final equity to the power 12 / n, minus 1. *)
Theorem cagr_raises_only_on_empty :
  forall returns : Series,
    (returns = [] -> cagr returns = Raise IndexError) /\
    (returns <> [] ->
     exists final e,
       iloc_last (equity_curve returns) = Ok final /\
       e == 12 / inject_Z (Z.of_nat (length returns)) /\
       cagr returns = Ok (fsub (np_power final (Fin e)) (Fin 1))).
Proof.
  intros returns. split.
  - intros ->. reflexivity.
  - intros Hne. unfold cagr.
    destruct (iloc_last_nonempty (equity_curve returns)
                (equity_curve_nonempty returns Hne)) as [final Hfinal].
    assert (Hn : 0 < inject_Z (Z.of_nat (length returns))).
    { destruct returns as [|x l]; [congruence|].
      change 0 with (inject_Z 0). rewrite <- Zlt_Qlt. cbn [length]. lia. }
    unfold py_div at 1. cbn [feqb]. change (Qeqb 12 0) with false.
    cbn [rbind fdiv]. change (Qeqb 12 0) with false. cbn [rbind].
    rewrite Hfinal. cbn [rbind]. unfold py_div. cbn [feqb].
    assert (Hy : Qeqb (inject_Z (Z.of_nat (length returns)) / 12) 0 = false).
    { apply Qeqb_false. intros E.
      assert (inject_Z (Z.of_nat (length returns)) == 0).
      { rewrite <- (Qmult_div_r (inject_Z (Z.of_nat (length returns))) 12)
          by discriminate.
        rewrite E. ring. }
      lra. }
    rewrite Hy. cbn [rbind fdiv]. rewrite Hy.
    exists final. eexists. split; [reflexivity|]. split; [|reflexivity].
    field. lra.
Qed.

End Cagr.

(* ------------------------------------------------------------------ *)
(** ** What [evolve] prints *)

(** The generation number a printed line carries, if any. *)
Definition line_gen (l : line) : option nat :=
  match l with
  | GenLine gen _ _ => Some gen
  | EarlyStopLine => None
  end.

Section Output.

Context {G : Type}.
Variable lib : deap G.

(** A computation that prints nothing. *)
Definition quiet {A : Type} (m : M G A) : Prop :=
  forall w, stdout (snd (m w)) = stdout w.

Lemma quiet_ret {A : Type} (a : A) : quiet (ret (G := G) a).
Proof. intros w. reflexivity. Qed.

Lemma quiet_with_rng {A : Type} (f : G -> A * G) : quiet (with_rng f).
Proof. intros w. unfold with_rng. now destruct (f (rng w)). Qed.

Lemma quiet_bind {A B : Type} (m : M G A) (k : A -> M G B) :
  quiet m -> (forall a, quiet (k a)) -> quiet (bind m k).
Proof.
  intros Hm Hk w. unfold bind. specialize (Hm w).
  destruct (m w) as [[a|e] w1]; cbn [snd] in Hm |- *.
  - now rewrite Hk.
  - exact Hm.
Qed.

Lemma quiet_initRepeat {A : Type} (func : M G A) (n : nat) :
  quiet func -> quiet (initRepeat func n).
Proof.
  intros Hf. induction n as [|n IH]; cbn [initRepeat].
  - apply quiet_ret.
  - apply quiet_bind; [exact Hf|]. intros a.
    apply quiet_bind; [exact IH|]. intros l. apply quiet_ret.
Qed.

Definition quiet_toolbox (toolbox : Toolbox G) : Prop :=
  (forall a b, quiet (mate G toolbox a b)) /\
  (forall a, quiet (mutate G toolbox a)).

Lemma quiet_varAnd (toolbox : Toolbox G) (cxpb mutpb : Q) pop :
  quiet_toolbox toolbox -> quiet (varAnd lib pop toolbox cxpb mutpb).
Proof.
  intros [Hmate Hmut]. unfold varAnd. apply quiet_bind.
  - assert (H : forall l,
               quiet (mate_pairs lib toolbox cxpb l) /\
               forall a, quiet (mate_pairs lib toolbox cxpb (a :: l))).
    { induction l as [|b rest [IH1 IH2]].
      - split; [|intros a]; apply quiet_ret.
      - split; [apply IH2|]. intros a. cbn [mate_pairs].
        apply quiet_bind; [apply quiet_with_rng|]. intros r.
        apply quiet_bind.
        + destruct (Qltb r cxpb); [apply Hmate | apply quiet_ret].
        + intros ab. apply quiet_bind; [exact IH1|].
          intros rest'. apply quiet_ret. }
    apply H.
  - intros offspring.
    induction offspring as [|a rest IH]; cbn [mutate_each].
    + apply quiet_ret.
    + apply quiet_bind; [apply quiet_with_rng|]. intros r.
      apply quiet_bind.
      * destruct (Qltb r mutpb); [apply Hmut | apply quiet_ret].
      * intros a'. apply quiet_bind; [exact IH|].
        intros rest'. apply quiet_ret.
Qed.

(** The lines of [k] generations from [gen] on, with or without the
    early-stop line at the end. *)
Definition generation_log (gen k : nat) (stop : bool) (lines : list line)
  : Prop :=
  map line_gen lines = map Some (seq gen k) ++ (if stop then [None] else []).

Lemma generations_log (toolbox : Toolbox G) val_X val_y :
  quiet_toolbox toolbox ->
  forall remaining gen pop hof w r w',
    generations lib toolbox val_X val_y remaining gen pop hof w = (r, w') ->
    exists k stop lines,
      (k <= remaining)%nat /\
      stdout w' = stdout w ++ lines /\
      generation_log gen k stop lines /\
      (stop = true -> exists h, r = Ok h) /\
      (forall h, r = Ok h -> stop = false -> k = remaining).
Proof.
  intros Hq. induction remaining as [|n IH]; intros gen pop hof w r w' E.
  - cbn in E. injection E as <- <-.
    exists 0%nat, false, []. rewrite app_nil_r.
    repeat split; auto. intros H; discriminate H.
  - cbn [generations] in E. unfold bind at 1 in E.
    pose proof (quiet_varAnd toolbox (1 # 2) (4 # 10) pop Hq w) as Hvar.
    destruct (varAnd lib pop toolbox (1 # 2) (4 # 10) w) as [[pop'|e] w1];
      cbn [snd] in Hvar.
    2:{ injection E as <- <-. exists 0%nat, false, [].
        rewrite app_nil_r. repeat split; auto with arith.
        - intros H; discriminate H.
        - intros h H; discriminate H. }
    unfold bind at 1, lift at 1 in E.
    destruct (mapM (evaluate G toolbox) pop') as [fits|e].
    2:{ injection E as <- <-. exists 0%nat, false, [].
        rewrite app_nil_r. repeat split; auto with arith.
        - intros H; discriminate H.
        - intros h H; discriminate H. }
    unfold bind at 1, lift at 1 in E.
    destruct (np_max fits) as [mx|e].
    2:{ injection E as <- <-. exists 0%nat, false, [].
        rewrite app_nil_r. repeat split; auto with arith.
        - intros H; discriminate H.
        - intros h H; discriminate H. }
    unfold bind at 1, print at 1 in E. unfold bind at 1, lift at 1 in E.
    destruct (validation_return toolbox _ val_X val_y) as [v|e].
    2:{ injection E as <- <-.
        exists 1%nat, false, [GenLine gen mx (np_mean fits)].
        cbn [emit stdout]. rewrite Hvar.
        repeat split; auto with arith.
        - intros H; discriminate H.
        - intros h H; discriminate H. }
    destruct (fgeb v (Fin (8 # 10))).
    + unfold bind, print, ret in E. injection E as <- <-.
      exists 1%nat, true, [GenLine gen mx (np_mean fits); EarlyStopLine].
      cbn [emit stdout]. rewrite Hvar, <- app_assoc.
      repeat split; auto with arith.
      * intros _. eauto.
      * intros h _ H; discriminate H.
    + destruct (IH _ _ _ _ _ _ E)
        as (k & stop & lines & Hk & Hout & Hlog & Hstop & Hfull).
      exists (S k), stop, (GenLine gen mx (np_mean fits) :: lines).
      split; [lia|]. split.
      * rewrite Hout. cbn [emit stdout]. rewrite Hvar, <- app_assoc.
        reflexivity.
      * split; [|split].
        -- unfold generation_log in Hlog |- *. cbn [map seq line_gen app].
           now rewrite Hlog.
        -- exact Hstop.
        -- intros h Hh Hs. now rewrite (Hfull h Hh Hs).
Qed.

(** X13: whatever happens, [evolve] prints one line per generation it
    completes, numbered 0, 1, 2, ... and at most 200 of them; the
    early-stop line can only come last, and then the run returns; a run
    that returns without it has printed all 200 generations. *)
Theorem evolve_prints_one_line_per_generation :
  forall (lm : libm) (train_X : DataFrame) (train_y : Series)
         (val_X : DataFrame) (val_y : Series) (w : world G)
         (r : result (HallOfFame * list String.string)) (w' : world G),
    evolve lib lm train_X train_y val_X val_y w = (r, w') ->
    exists k stop lines,
      (k <= 200)%nat /\
      stdout w' = stdout w ++ lines /\
      generation_log 0 k stop lines /\
      (stop = true -> exists h, r = Ok h) /\
      (forall h, r = Ok h -> stop = false -> k = 200%nat).
Proof.
  intros lm train_X train_y val_X val_y w r w' E.
  unfold evolve in E. unfold bind at 1 in E.
  set (toolbox := make_toolbox lib lm train_X train_y) in E.
  assert (Hq : quiet_toolbox toolbox)
    by (split; intros; apply quiet_with_rng).
  pose proof (quiet_initRepeat (individual G toolbox) 400
                (quiet_with_rng _) w) as Hpop.
  change (population G toolbox 400 w)
    with (initRepeat (individual G toolbox) 400 w) in E.
  destruct (initRepeat (individual G toolbox) 400 w) as [[pop|e] w1];
    cbn [snd] in Hpop.
  2:{ injection E as <- <-. exists 0%nat, false, [].
      rewrite app_nil_r. repeat split; auto with arith.
      - intros H; discriminate H.
      - intros h H; discriminate H. }
  unfold bind in E.
  destruct (generations lib toolbox val_X val_y 200 0 pop [] w1)
    as [[h|e] w2] eqn:Eg;
    destruct (generations_log toolbox val_X val_y Hq _ _ _ _ _ _ _ Eg)
      as (k & stop & lines & Hk & Hout & Hlog & Hstop & Hfull);
    unfold ret in E; injection E as <- <-;
    exists k, stop, lines; rewrite Hout, Hpop; repeat split; auto.
  - intros _. eauto.
  - intros h' _ Hs. exact (Hfull h eq_refl Hs).
  - intros Hs. destruct (Hstop Hs) as [h Hh]. discriminate Hh.
  - intros h H; discriminate H.
Qed.

End Output.

(* ------------------------------------------------------------------ *)
(** ** debug_ga_hof.cum_return *)

(** [(1 + signal * ret).cumprod().iloc[-1] - 1] *)
Definition cum_return (signal ret : Series) : result pyfloat :=
  (final <- iloc_last (cumprod (scalar_add (Fin 1) (smul signal ret))) ;;
   Ok (fsub final (Fin 1)))%result.

(** Two outcomes that are the same value, or the same exception. *)
Definition same_outcome (r1 r2 : result pyfloat) : Prop :=
  match r1, r2 with
  | Ok x, Ok y => feq x y
  | Raise e1, Raise e2 => e1 = e2
  | _, _ => False
  end.

Lemma Qcumprod_Qeq (l l' : list Q) :
  Forall2 Qeq l l' ->
  forall a a', a == a' -> Forall2 Qeq (Qcumprod a l) (Qcumprod a' l').
Proof.
  induction 1 as [|x x' l l' Hx Hl IH]; intros a a' Ha; cbn [Qcumprod].
  - constructor.
  - assert (E : a * x == a' * x') by (rewrite Ha, Hx; reflexivity).
    constructor; [exact E | apply IH, E].
Qed.

Lemma last_Qeq (l l' : list Q) :
  Forall2 Qeq l l' -> forall d d', d == d' -> last l d == last l' d'.
Proof.
  induction 1 as [|x x' l l' Hx Hl IH]; intros d d' Hd; [exact Hd|].
  destruct Hl as [|y y' l l' Hy Hl]; [exact Hx|].
  change (last (y :: l) d == last (y' :: l') d'). apply IH, Hd.
Qed.

Lemma products_commute (a b : list Q) :
  Forall2 Qeq (map (fun p => fst p * snd p) (combine a b))
              (map (fun p => fst p * snd p) (combine b a)).
Proof.
  revert b. induction a as [|x a IH]; intros [|y b]; cbn; try constructor.
  - ring.
  - apply IH.
Qed.

(** X14: the cumulative return the debugging script reports is the total
    return [fitness_function] and the early-stop check compute (the two
    multiply signal and return in opposite orders): on finite series the
    two give the same number, the same NaN when the lengths differ, and
    the same IndexError when both are empty. *)
Theorem cum_return_is_total_return :
  forall sq rq : list Q,
    same_outcome (cum_return (map Fin sq) (map Fin rq))
                 (total_return (map Fin sq) (map Fin rq)).
Proof.
  intros sq rq.
  change (cum_return (map Fin sq) (map Fin rq))
    with (total_return (map Fin rq) (map Fin sq)).
  destruct (Nat.eq_dec (length sq) (length rq)) as [Hlen|Hlen].
  - destruct sq as [|s sq].
    + destruct rq as [|r rq]; [reflexivity | discriminate Hlen].
    + assert (Hr : rq <> []) by (destruct rq; [discriminate Hlen | discriminate]).
      destruct (total_return_Fin (s :: sq) rq Hlen ltac:(discriminate))
        as (t & -> & x & l & E & ->).
      destruct (total_return_Fin rq (s :: sq) (eq_sym Hlen) Hr)
        as (t' & -> & x' & l' & E' & ->).
      cbn [same_outcome feq].
      assert (H : Forall2 Qeq (x' :: l') (x :: l)).
      { rewrite <- E, <- E'.
        pose proof (products_commute (s :: sq) rq) as Hp.
        destruct Hp as [|p p' ps ps' Hp Hps]; [constructor|].
        cbn [Qequity].
        assert (E1 : 1 + p == 1 + p') by (rewrite Hp; reflexivity).
        constructor; [exact E1|].
        apply Qcumprod_Qeq; [|exact E1].
        clear - Hps. induction Hps as [|y y' ? ? Hy ? IH]; cbn [map].
        - constructor.
        - constructor; [rewrite Hy; reflexivity | exact IH]. }
      inversion H as [|? ? ? ? Hx Hl]; subst.
      rewrite (last_Qeq _ _ Hl _ _ Hx). reflexivity.
  - rewrite (total_return_mismatch (map Fin rq) (map Fin sq))
      by (rewrite !length_map; congruence).
    rewrite (total_return_mismatch (map Fin sq) (map Fin rq))
      by (rewrite !length_map; congruence).
    exact I.
Qed.

(* ------------------------------------------------------------------ *)
(** ** The range of [sigmoid_safe] *)

(** X15: when exp is never negative, the [sigmoid] primitive returns a
    number in (0, 1] for every input, NaN and the infinities included: it
    is 1 / (1 + exp(-c)) for the clipped input c, and NaN is treated as
    +10. *)
Theorem sigmoid_safe_range :
  forall (lm : libm) (x : pyfloat),
    (forall q, 0 <= exp_fin lm q) ->
    exists c s,
      clip10 x = Ok (Fin c) /\
      sigmoid_safe lm x = Ok (Fin s) /\
      s == 1 / (1 + exp_fin lm (- c)) /\
      0 < s /\ s <= 1 /\
      (x = NaN -> c = 10).
Proof.
  intros lm x Hexp.
  destruct (clip10_bounds lm x) as (c & Ec & Hlo & Hhi).
  exists c. unfold sigmoid_safe. rewrite Ec. cbn [rbind fneg math_exp].
  assert (Hov : Qltb exp_overflow (- c) = false).
  { apply Qltb_false. unfold exp_overflow.
    apply Qle_trans with 10; [lra|]. unfold Qle; cbn; lia. }
  rewrite Hov. cbn [rbind fadd]. unfold py_div. cbn [feqb].
  pose proof (Hexp (- c)) as He.
  assert (Hz : Qeqb (1 + exp_fin lm (- c)) 0 = false)
    by (apply Qeqb_false; lra).
  rewrite Hz. cbn [fdiv try_except]. rewrite Hz.
  eexists. split; [reflexivity|]. split; [reflexivity|]. split; [reflexivity|].
  split; [|split].
  - apply Qlt_shift_div_l; lra.
  - apply Qle_shift_div_r; lra.
  - intros ->. cbn in Ec. now injection Ec as <-.
Qed.

(* ------------------------------------------------------------------ *)
(** ** Concrete runs of the further functions *)

Lemma rnd_nonneg (q : Q) : 0 <= q -> 0 <= rnd q.
Proof.
  intros Hq. unfold rnd.
  assert (H : (0 <= Qfloor (q * 1099511627776))%Z).
  { change 0%Z with (Qfloor 0). apply Qfloor_resp_le.
    apply Qmult_le_0_compat; [exact Hq | discriminate]. }
  unfold Qle. cbn [Qnum Qden]. lia.
Qed.

Lemma exp_approx_nonneg (q : Q) : 0 <= exp_fin libm_approx q.
Proof.
  cbn [exp_fin libm_approx]. unfold exp_approx. apply rnd_nonneg. nra.
Qed.

Definition table5 : DataFrame :=
  {| columns := ["mom_3"%string];
     rows := [[Fin 1]; [Fin 2]; [Fin 3]; [Fin 4]; [Fin 5]] |}.

Definition target5 : Series := [Fin 1; Fin 2; Fin 3; Fin 4; Fin 5].

Lemma train_val_test_split_sizes_witness :
  let '((train_X, train_y), (val_X, val_y), (test_X, test_y)) :=
    train_val_test_split table5 target5 in
  length train_y = length (rows train_X) /\
  length val_y = length (rows val_X) /\
  length test_y = length (rows test_X) /\
  rows train_X <> [] /\ rows val_X <> [] /\ rows test_X <> [].
Proof.
  pose proof (train_val_test_split_sizes table5 target5 eq_refl) as H.
  cbv zeta in H.
  destruct (train_val_test_split table5 target5)
    as [[[train_X train_y] [val_X val_y]] [test_X test_y]].
  destruct H as (H1 & H2 & H3 & H4 & _).
  assert (Hn : (3 <= length (rows table5))%nat) by (cbn; lia).
  destruct (H4 Hn) as (Ha & Hb & Hc).
  repeat split; assumption.
Defined.

Lemma max_drawdown_range_witness :
  exists q, max_drawdown (map Fin [1 # 10; - (1 # 5)]) = Fin q /\
            -1 <= q /\ q <= 0.
Proof.
  apply (max_drawdown_range (1 # 10) [- (1 # 5)]).
  repeat constructor.
Defined.

(** A loss of 50% in the first month and gains afterwards: no drawdown. *)
Lemma max_drawdown_zero_without_later_loss_witness :
  exists q, max_drawdown (map Fin [- (1 # 2); 1 # 10; 0]) = Fin q /\ q == 0.
Proof.
  apply (max_drawdown_zero_without_later_loss (- (1 # 2)) [1 # 10; 0]).
  - reflexivity.
  - repeat constructor; discriminate.
Defined.

(** A total loss in the first month, then +50%. *)
Lemma max_drawdown_after_total_loss_is_nan_witness :
  max_drawdown (map Fin [-1; 1 # 2]) = NaN.
Proof.
  apply (max_drawdown_after_total_loss_is_nan (-1) [1 # 2]). reflexivity.
Defined.


Lemma fitness_of_flat_strategy_is_zero_witness :
  exists t f,
    total_return (map Fin [0; 0]) (map Fin [1 # 2; - (1 # 4)]) = Ok (Fin t) /\
    t == 0 /\
    fitness_function (map Fin [0; 0]) (map Fin [1 # 2; - (1 # 4)])
    = Ok (Fin f) /\
    f == 0.
Proof.
  apply (fitness_of_flat_strategy_is_zero [0; 0] [1 # 2; - (1 # 4)]).
  - reflexivity.
  - discriminate.
  - repeat constructor.
Defined.

Lemma fitness_range_witness :
  exists f,
    fitness_function (map Fin [1; 1]) (map Fin [1 # 2; - (1 # 4)]) = Ok f /\
    (f = FLOOR \/
     (exists q, f = Fin q /\ -300 < q /\ q <= 0) \/
     fleb (Fin (3 # 10)) f = true).
Proof.
  apply (fitness_range [1; 1] [1 # 2; - (1 # 4)]).
  - reflexivity.
  - discriminate.
Defined.

(** 1 / 1e-7: [div_safe] gives 10000000, [div_prot] gives 0. *)
Lemma division_primitives_agree_witness :
  apply2 Prim.div_safe (Fin 1) (Fin (1 # 10000000)) = Ok (Fin 10000000) /\
  apply2 Prim.div_prot (Fin 1) (Fin (1 # 10000000)) = Ok (Fin 0).
Proof.
  destruct (division_primitives_agree (Fin 1) (Fin (1 # 10000000)))
    as (_ & _ & H & _).
  apply H; reflexivity.
Defined.

Lemma protected_fallbacks_unreachable_witness :
  sigmoid_safe libm_approx NaN =
  (c <- clip10 NaN ;;
   e <- math_exp libm_approx (fneg c) ;;
   py_div (Fin 1) (fadd (Fin 1) e))%result.
Proof.
  destruct (protected_fallbacks_unreachable libm_approx NaN NaN)
    as (_ & _ & _ & H).
  apply H. exact exp_approx_nonneg.
Defined.

Lemma sigmoid_safe_range_witness :
  exists c s,
    clip10 NaN = Ok (Fin c) /\
    sigmoid_safe libm_approx NaN = Ok (Fin s) /\
    s == 1 / (1 + exp_fin libm_approx (- c)) /\
    0 < s /\ s <= 1 /\
    (NaN = NaN -> c = 10).
Proof.
  apply (sigmoid_safe_range libm_approx NaN). exact exp_approx_nonneg.
Defined.


Lemma evolve_prints_one_line_per_generation_witness :
  exists k stop lines,
    (k <= 200)%nat /\
    stdout
      (snd (evolve lcg_deap libm_approx train1 train1_y no_rows []
              initial_world))
    = stdout initial_world ++ lines /\
    generation_log 0 k stop lines.
Proof.
  destruct (evolve lcg_deap libm_approx train1 train1_y no_rows []
              initial_world) as [r w'] eqn:E.
  destruct (evolve_prints_one_line_per_generation lcg_deap libm_approx
              train1 train1_y no_rows [] initial_world r w' E)
    as (k & stop & lines & Hk & Hout & Hlog & _).
  exists k, stop, lines. cbn [snd]. repeat split; assumption.
Defined.

(* ------------------------------------------------------------------ *)
(** * data_io.load_prices

    The frame is taken as [pd.read_csv] hands it over: one row per line of
    the file, with its date as index and the value of the price column,
    NaN where the file has none.  A date is a day number, or [None] for
    NaT, the index of a line whose date is missing. *)

Definition Frame : Type := list (option Z * pyfloat).

Inductive warning : Type :=
| UnexpectedRowCount (found : nat)
| IrregularSpacing.

(** Equal index labels; NaT counts as equal to NaT. *)
Definition date_eqb (a b : option Z) : bool :=
  match a, b with
  | Some x, Some y => (x =? y)%Z
  | None, None => true
  | _, _ => false
  end.

(** The order [sort_index] puts the labels in: NaT comes last. *)
Definition date_ltb (a b : option Z) : bool :=
  match a, b with
  | Some x, Some y => (x <? y)%Z
  | Some _, None => true
  | None, _ => false
  end.

(** [df[~df.index.duplicated(keep="first")]]: a row is dropped when its
    date has been seen on an earlier row. *)
Fixpoint drop_duplicated (seen : list (option Z)) (df : Frame) : Frame :=
  match df with
  | [] => []
  | (d, p) :: df' =>
      if existsb (date_eqb d) seen then drop_duplicated seen df'
      else (d, p) :: drop_duplicated (d :: seen) df'
  end.

(** [df.sort_index()] *)
Fixpoint insert_row (x : option Z * pyfloat) (df : Frame) : Frame :=
  match df with
  | [] => [x]
  | y :: df' =>
      if date_ltb (fst x) (fst y) then x :: y :: df' else y :: insert_row x df'
  end.

Definition sort_index (df : Frame) : Frame := fold_right insert_row [] df.

(** [df.dropna(subset=[price_col])] *)
Definition dropna (df : Frame) : Frame :=
  filter (fun r => negb (is_nan (snd r))) df.

(** [index.is_monotonic_increasing]: false as soon as a label is NaT. *)
Fixpoint is_monotonic_increasing (dates : list (option Z)) : bool :=
  match dates with
  | [] => true
  | None :: _ => false
  | Some d1 :: rest =>
      match rest with
      | [] => true
      | None :: _ => false
      | Some d2 :: _ => (d1 <=? d2)%Z && is_monotonic_increasing rest
      end
  end.

(** [index.to_series().diff().dropna().dt.days] *)
Fixpoint day_deltas (dates : list (option Z)) : list Z :=
  match dates with
  | [] => []
  | d1 :: rest =>
      match d1, rest with
      | Some x, Some y :: _ => (y - x)%Z :: day_deltas rest
      | _, _ => day_deltas rest
      end
  end.

Definition list_min (l : list Z) (d : Z) : Z := fold_right Z.min d l.
Definition list_max (l : list Z) (d : Z) : Z := fold_right Z.max d l.

(** The result, and the warnings printed on the way. *)
Definition load_prices (csv : Frame) : result Frame * list warning :=
  let df := sort_index (drop_duplicated [] csv) in
  let df := dropna df in
  if (length df <? 90)%nat then (Raise ValueError, [])
  else
    let out1 := if negb (length df =? 91)%nat
                then [UnexpectedRowCount (length df)] else [] in
    if negb (is_monotonic_increasing (map fst df)) then (Raise ValueError, out1)
    else
      let deltas := day_deltas (map fst df) in
      let out2 :=
        match deltas with
        | [] => []
        | d :: ds =>
            if (list_min ds d <? 20)%Z || (40 <? list_max ds d)%Z
            then [IrregularSpacing] else []
        end in
      (Ok df, out1 ++ out2).

(** Rows in strictly increasing order of date, each with a date. *)
Definition earlier (a b : option Z * pyfloat) : Prop :=
  match fst a, fst b with
  | Some x, Some y => (x < y)%Z
  | _, _ => False
  end.

(** Rows in the order of [sort_index]. *)
Definition before (a b : option Z * pyfloat) : Prop :=
  date_ltb (fst a) (fst b) = true.

Lemma date_eqb_eq (a b : option Z) : date_eqb a b = true <-> a = b.
Proof.
  destruct a as [x|], b as [y|]; cbn; try (split; [discriminate|congruence]).
  - rewrite Z.eqb_eq. split; congruence.
  - split; reflexivity.
Qed.

Lemma date_ltb_total (a b : option Z) :
  a <> b -> date_ltb a b = false -> date_ltb b a = true.
Proof.
  destruct a as [x|], b as [y|]; cbn; intros Hne H; try congruence.
  apply Z.ltb_ge in H. apply Z.ltb_lt.
  assert (x <> y) by congruence. lia.
Qed.

Lemma date_ltb_trans (a b c : option Z) :
  date_ltb a b = true -> date_ltb b c = true -> date_ltb a c = true.
Proof.
  destruct a as [x|], b as [y|], c as [z|]; cbn; try congruence.
  rewrite !Z.ltb_lt. lia.
Qed.

Lemma date_ltb_irrefl (a : option Z) : date_ltb a a = false.
Proof. destruct a as [x|]; cbn; [apply Z.ltb_irrefl | reflexivity]. Qed.

Lemma In_insert_row (x r : option Z * pyfloat) (df : Frame) :
  In r (insert_row x df) <-> r = x \/ In r df.
Proof.
  induction df as [|y df IH]; cbn [insert_row].
  - cbn. intuition.
  - destruct (date_ltb (fst x) (fst y)); cbn [In] in *; rewrite ?IH; intuition.
Qed.

Lemma In_sort_index (r : option Z * pyfloat) (df : Frame) :
  In r (sort_index df) <-> In r df.
Proof.
  induction df as [|x df IH]; [reflexivity|].
  cbn [sort_index fold_right]. fold (sort_index df).
  rewrite In_insert_row, IH. cbn. intuition.
Qed.

Lemma drop_duplicated_spec (df : Frame) :
  forall seen,
    (forall r, In r (drop_duplicated seen df) ->
               In r df /\ ~ In (fst r) seen) /\
    NoDup (map fst (drop_duplicated seen df)).
Proof.
  induction df as [|[d p] df IH]; intros seen; cbn [drop_duplicated].
  - split; [intros r []|constructor].
  - destruct (existsb (date_eqb d) seen) eqn:E.
    + destruct (IH seen) as [Hin Hnd]. split; [|exact Hnd].
      intros r Hr. destruct (Hin r Hr). split; [right|]; assumption.
    + destruct (IH (d :: seen)) as [Hin Hnd]. split.
      * intros r [<-|Hr].
        -- split; [left; reflexivity|]. cbn [fst]. intros Hd.
           assert (existsb (date_eqb d) seen = true); [|congruence].
           apply existsb_exists. exists d.
           split; [exact Hd | now apply date_eqb_eq].
        -- destruct (Hin r Hr) as [H1 H2]. split; [right; exact H1|].
           intros H. apply H2. right. exact H.
      * cbn [map fst]. constructor; [|exact Hnd].
        intros Hd. apply in_map_iff in Hd as (r & Er & Hr).
        destruct (Hin r Hr) as [_ H2]. apply H2. left. now rewrite Er.
Qed.

Lemma insert_row_sorted (x : option Z * pyfloat) (df : Frame) :
  StronglySorted before df ->
  ~ In (fst x) (map fst df) ->
  StronglySorted before (insert_row x df).
Proof.
  induction 1 as [|y df Hs IH Hy]; intros Hx; cbn [insert_row].
  - constructor; constructor.
  - destruct (date_ltb (fst x) (fst y)) eqn:E.
    + constructor; [constructor; assumption|].
      constructor; [exact E|].
      eapply Forall_impl; [|exact Hy]. unfold before. intros r Hr.
      exact (date_ltb_trans _ _ _ E Hr).
    + assert (Hne : fst y <> fst x).
      { intros Heq. apply Hx. left. exact Heq. }
      constructor.
      * apply IH. intros H. apply Hx. right. exact H.
      * apply Forall_forall. intros r Hr. apply In_insert_row in Hr as [->|Hr].
        -- unfold before. apply date_ltb_total; [congruence | exact E].
        -- rewrite Forall_forall in Hy. apply Hy, Hr.
Qed.

Lemma sort_index_sorted (df : Frame) :
  NoDup (map fst df) -> StronglySorted before (sort_index df).
Proof.
  induction df as [|x df IH]; cbn [map]; intros Hnd.
  - constructor.
  - inversion Hnd as [|? ? Hx Hnd']; subst.
    cbn [sort_index fold_right]. fold (sort_index df).
    apply insert_row_sorted; [apply IH, Hnd'|].
    intros H. apply Hx. apply in_map_iff in H as (r & Er & Hr).
    apply in_map_iff. exists r. split; [exact Er|].
    apply In_sort_index, Hr.
Qed.

Lemma filter_sorted {A : Type} (R : A -> A -> Prop) (f : A -> bool)
  (l : list A) :
  StronglySorted R l -> StronglySorted R (filter f l).
Proof.
  induction 1 as [|x l Hs IH Hx]; cbn [filter]; [constructor|].
  destruct (f x); [|exact IH].
  constructor; [exact IH|].
  apply Forall_forall. intros y Hy. apply filter_In in Hy as [Hy _].
  rewrite Forall_forall in Hx. apply Hx, Hy.
Qed.

(** Sorted rows that all have a date are in strictly increasing order. *)
Lemma before_earlier (df : Frame) :
  StronglySorted before df -> ~ In None (map fst df) ->
  StronglySorted earlier df.
Proof.
  induction 1 as [|x df Hs IH Hx]; intros Hn; [constructor|].
  cbn [map] in Hn.
  constructor.
  - apply IH. intros H. apply Hn. right. exact H.
  - apply Forall_forall. intros r Hr.
    rewrite Forall_forall in Hx. specialize (Hx r Hr).
    unfold before in Hx. unfold earlier.
    destruct (fst x) as [a|] eqn:Ea; [|exfalso; apply Hn; left; reflexivity].
    destruct (fst r) as [b|] eqn:Eb.
    + cbn in Hx. now apply Z.ltb_lt.
    + exfalso. apply Hn. right. apply in_map_iff. exists r. tauto.
Qed.

Lemma earlier_before (df : Frame) :
  StronglySorted earlier df -> StronglySorted before df.
Proof.
  induction 1 as [|x df Hs IH Hx]; constructor; [exact IH|].
  eapply Forall_impl; [|exact Hx]. intros r Hr.
  unfold earlier in Hr. unfold before.
  destruct (fst x), (fst r); try contradiction. cbn. now apply Z.ltb_lt.
Qed.

Lemma is_monotonic_increasing_cons (a b : Z) (rest : list (option Z)) :
  is_monotonic_increasing (Some a :: Some b :: rest) =
  (a <=? b)%Z && is_monotonic_increasing (Some b :: rest).
Proof. reflexivity. Qed.

Lemma sorted_is_monotonic (df : Frame) :
  StronglySorted earlier df -> ~ In None (map fst df) ->
  is_monotonic_increasing (map fst df) = true.
Proof.
  induction 1 as [|x df Hs IH Hx]; intros Hn; [reflexivity|].
  cbn [map] in Hn |- *.
  assert (IH' : is_monotonic_increasing (map fst df) = true).
  { apply IH. intros H. apply Hn. right. exact H. }
  destruct (fst x) as [a|] eqn:Ea; [|exfalso; apply Hn; left; reflexivity].
  destruct df as [|y df]; [reflexivity|]. cbn [map] in *.
  inversion Hx as [|? ? Hxy _]; subst. unfold earlier in Hxy. rewrite Ea in Hxy.
  destruct (fst y) as [b|] eqn:Eb; [|contradiction].
  rewrite is_monotonic_increasing_cons, IH', andb_true_r.
  apply Z.leb_le. lia.
Qed.

Lemma missing_date_not_monotonic (dates : list (option Z)) :
  In None dates -> is_monotonic_increasing dates = false.
Proof.
  induction dates as [|d dates IH]; intros Hin; [destruct Hin|].
  destruct d as [a|]; [|reflexivity].
  destruct Hin as [H|Hin]; [discriminate H|].
  destruct dates as [|[b|] dates]; [destruct Hin | | reflexivity].
  rewrite is_monotonic_increasing_cons, (IH Hin). apply andb_false_r.
Qed.

(** The rows left after the duplicates, the sorting and the NaN prices. *)
Definition cleaned (csv : Frame) : Frame :=
  dropna (sort_index (drop_duplicated [] csv)).

Lemma cleaned_sorted (csv : Frame) : StronglySorted before (cleaned csv).
Proof.
  apply filter_sorted, sort_index_sorted.
  apply (drop_duplicated_spec csv []).
Qed.

Lemma load_prices_cases (csv : Frame) :
  ((length (cleaned csv) < 90)%nat /\
   load_prices csv = (Raise ValueError, [])) \/
  ((90 <= length (cleaned csv))%nat /\
   In None (map fst (cleaned csv)) /\
   load_prices csv =
   (Raise ValueError,
    if (length (cleaned csv) =? 91)%nat then []
    else [UnexpectedRowCount (length (cleaned csv))])) \/
  ((90 <= length (cleaned csv))%nat /\
   ~ In None (map fst (cleaned csv)) /\
   exists out, load_prices csv = (Ok (cleaned csv), out)).
Proof.
  unfold load_prices. fold (cleaned csv).
  destruct (length (cleaned csv) <? 90)%nat eqn:E.
  - left. apply Nat.ltb_lt in E. split; [exact E | reflexivity].
  - right. apply Nat.ltb_ge in E.
    destruct (in_dec (fun a b : option Z =>
                        ltac:(decide equality; apply Z.eq_dec)
                        : {a = b} + {a <> b})
                None (map fst (cleaned csv))) as [Hin|Hn].
    + left. split; [exact E|]. split; [exact Hin|].
      rewrite (missing_date_not_monotonic _ Hin). cbn [negb].
      destruct (length (cleaned csv) =? 91)%nat; reflexivity.
    + right. split; [exact E|]. split; [exact Hn|].
      rewrite (sorted_is_monotonic _
                 (before_earlier _ (cleaned_sorted csv) Hn) Hn).
      cbn [negb]. eexists. reflexivity.
Qed.


(** X17: the series [load_prices] returns has at least 90 rows, each with
    a date, strictly increasing dates and no missing price, and every row
    of it is a row of the file. *)
Theorem load_prices_returns_clean_series :
  forall (csv df : Frame) (out : list warning),
    load_prices csv = (Ok df, out) ->
    (90 <= length df)%nat /\
    StronglySorted earlier df /\
    Forall (fun r => is_nan (snd r) = false) df /\
    (forall r, In r df -> In r csv) /\
    ~ In None (map fst df).
Proof.
  intros csv df out H.
  destruct (load_prices_cases csv)
    as [[_ E]|[(_ & _ & E)|(Hge & Hn & [out' E])]];
    rewrite E in H; try discriminate H.
  injection H as <- _.
  split; [exact Hge|].
  split; [apply before_earlier; [apply cleaned_sorted | exact Hn]|].
  split; [|split; [|exact Hn]].
  - apply Forall_forall. intros r Hr. unfold cleaned, dropna in Hr.
    apply filter_In in Hr as [_ Hr]. now apply negb_true_iff in Hr.
  - intros r Hr. unfold cleaned, dropna in Hr.
    apply filter_In in Hr as [Hr _].
    apply (proj1 (In_sort_index r _)) in Hr.
    destruct (drop_duplicated_spec csv []) as [Hin _].
    apply (Hin r Hr).
Qed.

Lemma sort_index_of_sorted (df : Frame) :
  StronglySorted before df -> sort_index df = df.
Proof.
  induction 1 as [|x df Hs IH Hx]; [reflexivity|].
  cbn [sort_index fold_right]. fold (sort_index df). rewrite IH.
  destruct df as [|y df]; [reflexivity|]. cbn [insert_row].
  inversion Hx as [|? ? Hxy _]; subst. unfold before in Hxy.
  now rewrite Hxy.
Qed.

Lemma drop_duplicated_of_sorted (df : Frame) :
  StronglySorted before df ->
  forall seen,
    (forall r, In r df -> ~ In (fst r) seen) ->
    drop_duplicated seen df = df.
Proof.
  induction 1 as [|[d p] df Hs IH Hx]; intros seen Hseen; [reflexivity|].
  cbn [drop_duplicated].
  destruct (existsb (date_eqb d) seen) eqn:E.
  - apply existsb_exists in E as (z & Hz & Ez). apply date_eqb_eq in Ez.
    subst z. exfalso. apply (Hseen (d, p)); [left; reflexivity | exact Hz].
  - f_equal. apply IH. intros r Hr [Hd|Hin].
    + rewrite Forall_forall in Hx. specialize (Hx r Hr).
      unfold before in Hx. cbn [fst] in Hx. rewrite <- Hd in Hx.
      rewrite date_ltb_irrefl in Hx. discriminate Hx.
    + apply (Hseen r); [right; exact Hr | exact Hin].
Qed.

Lemma dropna_of_clean (df : Frame) :
  Forall (fun r => is_nan (snd r) = false) df -> dropna df = df.
Proof.
  induction 1 as [|r df Hr _ IH]; [reflexivity|].
  unfold dropna in *. cbn [filter]. rewrite Hr. cbn [negb]. now rewrite IH.
Qed.

(** X18: [load_prices] is idempotent: run on the series it returned, it
    returns that series again and prints the same warnings. *)
Theorem load_prices_idempotent :
  forall (csv df : Frame) (out : list warning),
    load_prices csv = (Ok df, out) ->
    load_prices df = (Ok df, out).
Proof.
  intros csv df out H.
  assert (Hcsv : cleaned csv = df).
  { destruct (load_prices_cases csv)
      as [[_ E]|[(_ & _ & E)|(_ & _ & [out' E])]];
      rewrite E in H; try discriminate H. now injection H. }
  assert (Hclean : cleaned df = df).
  { rewrite <- Hcsv.
    pose proof (cleaned_sorted csv) as Hs.
    unfold cleaned at 1.
    rewrite (drop_duplicated_of_sorted _ Hs []) by (intros r _ []).
    rewrite (sort_index_of_sorted _ Hs).
    apply dropna_of_clean.
    apply Forall_forall. intros r Hr. unfold cleaned, dropna in Hr.
    apply filter_In in Hr as [_ Hr]. now apply negb_true_iff in Hr. }
  revert H. unfold load_prices. fold (cleaned csv) (cleaned df).
  rewrite Hclean, Hcsv. trivial.
Qed.

Lemma drop_duplicated_keeps_first (pre post : Frame) (d : option Z)
  (p : pyfloat) :
  forall seen r,
    ~ In d seen ->
    ~ In d (map fst pre) ->
    In r (drop_duplicated seen (pre ++ (d, p) :: post)) ->
    fst r = d ->
    r = (d, p).
Proof.
  induction pre as [|[d' p'] pre IH]; intros seen r Hseen Hpre Hr Hd.
  - cbn [app drop_duplicated] in Hr.
    destruct (existsb (date_eqb d) seen) eqn:E.
    + apply existsb_exists in E as (z & Hz & Ez). apply date_eqb_eq in Ez.
      subst z. contradiction.
    + destruct Hr as [<-|Hr]; [reflexivity|].
      destruct (drop_duplicated_spec post (d :: seen)) as [Hin _].
      destruct (Hin r Hr) as [_ Hn]. exfalso. apply Hn. left. now rewrite Hd.
  - cbn [map fst] in Hpre.
    assert (Hne : d' <> d) by (intros ->; apply Hpre; left; reflexivity).
    assert (Hpre' : ~ In d (map fst pre))
      by (intros H; apply Hpre; right; exact H).
    cbn [app drop_duplicated] in Hr.
    destruct (existsb (date_eqb d') seen).
    + apply (IH seen r Hseen Hpre' Hr Hd).
    + destruct Hr as [<-|Hr]; [cbn [fst] in Hd; contradiction|].
      apply (IH (d' :: seen) r); try assumption.
      intros [H|H]; [contradiction | exact (Hseen H)].
Qed.

(** X19: duplicates are dropped before missing prices are: a date whose
    first row in the file has no price is absent from the result, even if
    a later row of the same date has one. *)
Theorem load_prices_loses_date_with_missing_first_price :
  forall (pre post df : Frame) (d : option Z) (out : list warning),
    ~ In d (map fst pre) ->
    load_prices (pre ++ (d, NaN) :: post) = (Ok df, out) ->
    ~ In d (map fst df).
Proof.
  intros pre post df d out Hpre H Hd.
  destruct (load_prices_cases (pre ++ (d, NaN) :: post))
    as [[_ E]|[(_ & _ & E)|(_ & _ & [out' E])]];
    rewrite E in H; try discriminate H.
  injection H as <- _.
  apply in_map_iff in Hd as (r & Er & Hr).
  unfold cleaned, dropna in Hr. apply filter_In in Hr as [Hr Hnan].
  apply (proj1 (In_sort_index r _)) in Hr.
  rewrite (drop_duplicated_keeps_first pre post d NaN [] r
             (fun H => H) Hpre Hr Er) in Hnan.
  discriminate Hnan.
Qed.

(** A file of 94 lines, one a month: the first line gives day 60 without a
    price, a later line gives day 60 with one. *)
Definition sample_csv : Frame :=
  (Some 60%Z, NaN) ::
  map (fun i => (Some (30 * Z.of_nat i)%Z, Fin (inject_Z (Z.of_nat i))))
    (seq 0 93).


Lemma sample_csv_loads :
  exists df out, load_prices sample_csv = (Ok df, out).
Proof. vm_compute. eexists; eexists; reflexivity. Qed.


Lemma load_prices_returns_clean_series_witness :
  exists df out,
    load_prices sample_csv = (Ok df, out) /\
    (90 <= length df)%nat /\
    StronglySorted earlier df /\
    Forall (fun r => is_nan (snd r) = false) df.
Proof.
  destruct sample_csv_loads as (df & out & E).
  destruct (load_prices_returns_clean_series sample_csv df out E)
    as (H1 & H2 & H3 & _).
  exists df, out. repeat split; assumption.
Defined.

Lemma load_prices_idempotent_witness :
  exists df out,
    load_prices sample_csv = (Ok df, out) /\
    load_prices df = (Ok df, out).
Proof.
  destruct sample_csv_loads as (df & out & E).
  exists df, out. split; [exact E|].
  exact (load_prices_idempotent sample_csv df out E).
Defined.

Lemma load_prices_loses_date_with_missing_first_price_witness :
  exists df out,
    load_prices sample_csv = (Ok df, out) /\ ~ In (Some 60%Z) (map fst df).
Proof.
  destruct sample_csv_loads as (df & out & E).
  exists df, out. split; [exact E|].
  apply (load_prices_loses_date_with_missing_first_price
           [] (map (fun i => (Some (30 * Z.of_nat i)%Z,
                             Fin (inject_Z (Z.of_nat i)))) (seq 0 93))
           df (Some 60%Z) out).
  - intros [].
  - exact E.
Defined.
